(** * AeroSandbox tutorial snapshot: notebooks and CI workflow

    The snapshot holds two tutorial notebooks and one GitHub Actions
    workflow.  The notebooks are embedded as data: every code cell is the
    abstract syntax tree of its Python source (constructor names follow
    Python's [ast] module), together with the outputs recorded in the
    [.ipynb] file.  The workflow is embedded as the record its YAML
    denotes.  Interpreters over this data give the notebooks their
    meaning: a constant evaluator over [Q], a shape checker, a
    denotation of constraints over [R], and a cell-by-cell executor that
    threads the kernel state and propagates exceptions. *)

From Stdlib Require Import List String Ascii Bool Arith ZArith QArith Qreals.
From Stdlib Require Import Reals Lia Lra.
Import ListNotations.

#[local] Set Warnings "-register-all".

(** ** Python abstract syntax *)

Module Py.

Inductive constant : Type :=
| CInt (z : Z)
| CFloat (q : Q)
| CStr (s : string)
| CBool (b : bool).

Inductive operator : Type := Add | Sub | Mult | Div | Pow.

Inductive unaryop : Type := USub.

Inductive cmpop : Type := OpEq | OpNotEq | OpLt | OpLtE | OpGt | OpGtE.

(** Expressions.  [Compare] carries one comparator, which is all the
    notebooks use; [Slice] has no step for the same reason. *)
Inductive expr : Type :=
| Name (id : string)
| Constant (value : constant)
| Attribute (value : expr) (attr : string)
| Call (func : expr) (args : list expr) (keywords : list (string * expr))
| BinOp (left : expr) (op : operator) (right : expr)
| UnaryOp (op : unaryop) (operand : expr)
| Compare (left : expr) (op : cmpop) (right : expr)
| Subscript (value : expr) (slice : expr)
| Slice (lower upper : option expr)
| PyList (elts : list expr)
| JoinedStr (values : list expr)
| FormattedValue (value : expr).

(** Statements: the forms the notebooks use, and [Try], the construct
    whose absence around the solver call is at stake.  [Try] has one
    [except] clause: [exc_type = None] is a bare [except:]. *)
Inductive stmt : Type :=
| Import_ (name : string) (asname : option string)
| Assign (target : string) (value : expr)
| ExprStmt (value : expr)
| FunctionDef (name : string) (args : list string) (body : list stmt)
| Return (value : expr)
| Try (body : list stmt) (exc_type : option string) (handler : list stmt).

(** A line of a code cell: a statement (which may span several physical
    lines) or a whole-line comment.  Trailing comments are dropped. *)
Inductive item : Type :=
| Stmt (s : stmt)
| Comment (text : string).

Definition statements (src : list item) : list stmt :=
  flat_map (fun i => match i with Stmt s => [s] | Comment _ => [] end) src.

Definition comments (src : list item) : list string :=
  flat_map (fun i => match i with Stmt _ => [] | Comment c => [c] end) src.

(** Shorthands used to write the cells down. *)
Definition int (z : Z) : expr := Constant (CInt z).
Definition float (q : Q) : expr := Constant (CFloat q).
Definition str (s : string) : expr := Constant (CStr s).
Definition method (obj meth : string) (args : list expr)
  (keywords : list (string * expr)) : expr :=
  Call (Attribute (Name obj) meth) args keywords.

End Py.

(** ** Notebook documents *)

Module Nb.
Import Py.

Definition nl : string := String (ascii_of_nat 10) EmptyString.

Inductive output : Type :=
| Stream (name : string) (text : list string)
| ExecuteResult (execution_count : nat) (text_plain : string).

(** A markdown cell keeps only its first line; its prose plays no part
    in execution. *)
Inductive cell : Type :=
| Markdown (first_line : string)
| Code (execution_count : option nat) (source : list item)
       (outputs : list output).

Record notebook : Type := {
  path : string;
  cells : list cell;
  nbformat : nat
}.

Definition code_cells (nb : notebook) : list (list item * list output) :=
  flat_map (fun c => match c with
                     | Markdown _ => []
                     | Code _ src outs => [(src, outs)]
                     end) (cells nb).

(** All statements of the notebook, in execution order. *)
Definition script (nb : notebook) : list stmt :=
  flat_map (fun c => statements (fst c)) (code_cells nb).

End Nb.

(** ** 01 - 1D Rocket Problem with Manual Dynamics.ipynb *)

Module Rocket.
Import Py Nb.
Local Open Scope string_scope.

(** The three forward-Euler constraints of the second code cell. *)
Definition y_dynamics : expr :=
  Compare (method "np" "diff" [Name "y"] []) OpEq
    (BinOp (Subscript (Name "velocity") (Slice None (Some (UnaryOp USub (int 1)))))
       Mult (method "np" "diff" [Name "time"] [])).

Definition velocity_dynamics : expr :=
  Compare (method "np" "diff" [Name "velocity"] []) OpEq
    (BinOp
       (BinOp
          (BinOp (Subscript (Name "u") (Slice None (Some (UnaryOp USub (int 1)))))
             Div (Subscript (Name "mass") (Slice None (Some (UnaryOp USub (int 1))))))
          Sub (Name "g"))
       Mult (method "np" "diff" [Name "time"] [])).

Definition mass_dynamics : expr :=
  Compare (method "np" "diff" [Name "mass"] []) OpEq
    (BinOp
       (BinOp (UnaryOp USub (Name "alpha")) Mult
          (Subscript (Name "u") (Slice None (Some (UnaryOp USub (int 1))))))
       Mult (method "np" "diff" [Name "time"] [])).

Definition mass_nonneg : expr := Compare (Name "mass") OpGtE (int 0).
Definition u_nonneg : expr := Compare (Name "u") OpGtE (int 0).

Definition cell_setup : list item :=
  [ Stmt (Import_ "aerosandbox" (Some "asb"));
    Stmt (Import_ "aerosandbox.numpy" (Some "np"));
    Comment "### Environment";
    Stmt (Assign "opti" (method "asb" "Opti" [] []));
    Comment "### Time discretization";
    Stmt (Assign "N" (int 100));
    Stmt (Assign "time_final" (int 100));
    Stmt (Assign "time"
            (method "np" "linspace" [int 0; Name "time_final"; Name "N"] []));
    Comment "### Constants";
    Stmt (Assign "mass_initial" (float 500e3));
    Stmt (Assign "y_final" (float 100e3));
    Stmt (Assign "g" (float 9.81));
    Stmt (Assign "alpha"
            (BinOp (int 1) Div (BinOp (int 300) Mult (Name "g"))));
    Comment "### Variables";
    Stmt (Assign "y"
            (method "opti" "variable" []
               [("init_guess",
                 method "np" "linspace" [int 0; Name "y_final"; Name "N"] [])]));
    Stmt (Assign "velocity"
            (method "opti" "variable" []
               [("init_guess", BinOp (Name "y_final") Div (Name "time_final"));
                ("n_vars", Name "N")]));
    Stmt (Assign "mass"
            (method "opti" "variable" []
               [("init_guess", Name "mass_initial"); ("n_vars", Name "N")]));
    Stmt (Assign "u"
            (method "opti" "variable" []
               [("init_guess", BinOp (Name "g") Mult (Name "mass_initial"));
                ("n_vars", Name "N")])) ].

Definition cell_dynamics : list item :=
  [ Comment "### Dynamics (implemented manually for now, we'll show you more sophisticated ways to do this in the Trajectory";
    Comment "# Optimization part of the tutorial later on)";
    Stmt (ExprStmt
            (method "opti" "subject_to"
               [PyList [y_dynamics; velocity_dynamics; mass_dynamics]] [])) ].

Definition cell_solve : list item :=
  [ Comment "### Boundary conditions";
    Stmt (ExprStmt
            (method "opti" "subject_to"
               [PyList
                  [ Compare (Subscript (Name "y") (int 0)) OpEq (int 0);
                    Compare (Subscript (Name "velocity") (int 0)) OpEq (int 0);
                    Compare (Subscript (Name "mass") (int 0)) OpEq
                      (Name "mass_initial");
                    Compare (Subscript (Name "y") (UnaryOp USub (int 1))) OpEq
                      (Name "y_final") ]] []));
    Comment "### Path constraints";
    Stmt (ExprStmt
            (method "opti" "subject_to" [PyList [mass_nonneg; u_nonneg]] []));
    Comment "### Objective";
    Stmt (ExprStmt
            (method "opti" "minimize"
               [UnaryOp USub (Subscript (Name "mass") (UnaryOp USub (int 1)))] []));
    Comment "### Solve";
    Stmt (Assign "sol"
            (method "opti" "solve" [] [("verbose", Constant (CBool false))]));
    Stmt (ExprStmt
            (Call (Name "print")
               [JoinedStr
                  [ str "Solved in ";
                    FormattedValue
                      (Subscript (method "sol" "stats" [] []) (str "iter_count"));
                    str " iterations." ]] [])) ].

Definition cell_constrain_derivative : list item :=
  [ Stmt (ExprStmt
            (method "opti" "constrain_derivative" []
               [("derivative", Name "velocity");
                ("variable", Name "y");
                ("with_respect_to", Name "time")]));
    Stmt (ExprStmt
            (method "opti" "constrain_derivative" []
               [("derivative",
                 BinOp (BinOp (Name "u") Div (Name "mass")) Sub (Name "g"));
                ("variable", Name "velocity");
                ("with_respect_to", Name "time")]));
    Stmt (ExprStmt
            (method "opti" "constrain_derivative" []
               [("derivative", BinOp (UnaryOp USub (Name "alpha")) Mult (Name "u"));
                ("variable", Name "mass");
                ("with_respect_to", Name "time")])) ].

Definition notebook : Nb.notebook :=
  {| path := "tutorial/03 - Trajectory Optimization and Optimal Control/03 - The AeroSandbox Dynamics Stack/01 - 1D Rocket Problem with Manual Dynamics.ipynb";
     cells :=
       [ Markdown "# Rocket Problem with Manual Dynamics";
         Code (Some 1%nat) cell_setup [];
         Markdown "Here's where it gets interesting. We can implement the dynamics as follows, where we *explicitly* write out the relationship between variables using constraints.";
         Code (Some 2%nat) cell_dynamics
           [ExecuteResult 2 "[MX(fabs(opti0_lam_g_1)), MX(fabs(opti0_lam_g_2)), MX(fabs(opti0_lam_g_3))]"];
         Markdown "We the continue to write out the problem, and solve it.";
         Code (Some 3%nat) cell_solve
           [Stream "stdout" ["Solved in 14 iterations." ++ nl]];
         Markdown "Okay, let's go back to that dynamics section of this problem - this part:";
         Code (Some 4%nat) cell_constrain_derivative [];
         Markdown "Personally, I think this is a lot more readable than the more-mathematical `opti.subject_to()` implementation above - but that's open to opinion." ];
     nbformat := 4 |}.

End Rocket.

(** ** 02 - Constraining Gradients.ipynb *)

Module Gradients.
Import Py Nb.
Local Open Scope string_scope.

Definition f_def : stmt :=
  FunctionDef "f" ["x"] [Return (BinOp (Name "x") Pow (int 4))].

Definition gradient_constraint : expr :=
  Compare (Call (Name "dfdx") [Name "x"] []) OpEq (int 1).

Definition closed_form : expr :=
  BinOp (BinOp (int 1) Div (int 4)) Pow (BinOp (int 1) Div (int 3)).

Definition cell_setup : list item :=
  [ Stmt (Import_ "aerosandbox" (Some "asb"));
    Stmt (Import_ "aerosandbox.numpy" (Some "np"));
    Stmt (Assign "opti" (method "asb" "Opti" [] []));
    Stmt (Assign "x"
            (method "opti" "variable" [] [("init_guess", int 10)]));
    Stmt f_def ].

Definition cell_gradient : list item :=
  [ Stmt (Import_ "casadi" (Some "cas"));
    Stmt (Assign "dummy" (method "cas" "GenMX_sym" [str "s"] []));
    Stmt (Assign "dfdx"
            (method "cas" "Function"
               [ str "dfdx";
                 PyList [Name "dummy"];
                 PyList
                   [method "cas" "gradient"
                      [Call (Name "f") [Name "dummy"] []; Name "dummy"] []] ]
               [])) ].

Definition cell_solve : list item :=
  [ Stmt (ExprStmt (method "opti" "subject_to" [gradient_constraint] []));
    Stmt (Assign "sol"
            (method "opti" "solve" [] [("verbose", Constant (CBool false))]));
    Stmt (ExprStmt
            (Call (Name "print")
               [JoinedStr
                  [ str "x_optimal = ";
                    FormattedValue (Call (Name "sol") [Name "x"] []) ]] [])) ].

Definition cell_compare : list item :=
  [ Stmt (ExprStmt (Call (Name "print") [closed_form] [])) ].

Definition notebook : Nb.notebook :=
  {| path := "tutorial/10 - Miscellaneous/02 - Constraining Gradients.ipynb";
     cells :=
       [ Markdown "# Constraining Gradients";
         Code (Some 1%nat) cell_setup [];
         Markdown "So far, this is all pretty normal. Now, we compute the gradient using a bit of CasADi magic:";
         Code (Some 2%nat) cell_gradient [];
         Markdown "And now we add our constraint and solve, turning verbosity off just to keep things a bit cleaner.";
         Code (Some 3%nat) cell_solve
           [Stream "stdout" ["x_optimal = 0.6299605894866889" ++ nl]];
         Markdown "Which we can then compare to our analytical solution:";
         Code (Some 4%nat) cell_compare
           [Stream "stdout" ["0.6299605249474366" ++ nl]];
         Markdown "So, it worked!" ];
     nbformat := 4 |}.

End Gradients.

(** ** Strings: splitting a command line, reading a decimal *)

Module Text.
Local Open Scope string_scope.

Definition space : ascii := ascii_of_nat 32.

(** [words_from cur s] splits [s] at blanks; [cur] holds the word being
    read, reversed into place as it grows. *)
Fixpoint words_from (cur : string) (s : string) : list string :=
  match s with
  | EmptyString => if String.eqb cur "" then [] else [cur]
  | String c r =>
      if Ascii.eqb c space
      then (if String.eqb cur "" then words_from "" r
            else cur :: words_from "" r)
      else words_from (cur ++ String c EmptyString) r
  end.

Definition words (s : string) : list string := words_from "" s.

Definition digit (c : ascii) : option N :=
  let n := N_of_ascii c in
  if ((48 <=? n) && (n <=? 57))%N then Some (n - 48)%N else None.

(** Value of a string of decimal digits read after [acc]; [None] when a
    character is no digit. *)
Fixpoint digits_from (acc : N) (s : string) : option N :=
  match s with
  | EmptyString => Some acc
  | String c r =>
      match digit c with
      | Some d => digits_from (10 * acc + d)%N r
      | None => None
      end
  end.

Definition nat_of_string (s : string) : option nat :=
  match s with
  | EmptyString => None
  | _ => option_map N.to_nat (digits_from 0 s)
  end.

(** [strip_prefix p s]: the rest of [s] after the prefix [p]. *)
Fixpoint strip_prefix (p s : string) : option string :=
  match p, s with
  | EmptyString, _ => Some s
  | String a p', String b s' =>
      if Ascii.eqb a b then strip_prefix p' s' else None
  | String _ _, EmptyString => None
  end.

(** Splits at the first occurrence of [sep]. *)
Fixpoint split_at (sep : ascii) (s : string) : string * option string :=
  match s with
  | EmptyString => (EmptyString, None)
  | String c r =>
      if Ascii.eqb c sep then (EmptyString, Some r)
      else let '(a, b) := split_at sep r in (String c a, b)
  end.

(** Drops one trailing newline, as the recorded stream texts end in one. *)
Fixpoint chomp (s : string) : string :=
  match s with
  | EmptyString => EmptyString
  | String c EmptyString =>
      if Ascii.eqb c (ascii_of_nat 10) then EmptyString else s
  | String c r => String c (chomp r)
  end.

(** A decimal literal [ddd.ddd] without sign or exponent, read exactly. *)
Definition decimal_of_string (s : string) : option Q :=
  match split_at "." s with
  | (ip, None) =>
      match ip with
      | EmptyString => None
      | _ => option_map (fun n => inject_Z (Z.of_N n)) (digits_from 0 ip)
      end
  | (ip, Some fp) =>
      match digits_from 0 (ip ++ fp) with
      | Some n =>
          Some (Qmake (Z.of_N n) (Pos.pow 10 (Pos.of_nat (String.length fp))))
      | None => None
      end
  end.

End Text.

(** ** .github/workflows/run-pytest.yml *)

Module Workflow.
Import Text.
Local Open Scope string_scope.

Record trigger : Type := {
  event : string;
  branches : list string
}.

(** A step of a job.  [step_if] and [continue_on_error] are the keys
    [if:] and [continue-on-error:]; a step that does not write them has
    [None] and [false], the platform's defaults. *)
Record step : Type := {
  step_name : option string;
  uses : option string;
  with_ : list (string * string);
  run : list string;
  step_if : option string;
  continue_on_error : bool
}.

Record job : Type := {
  runs_on : string;
  matrix : list (string * list string);
  steps : list step
}.

Record workflow : Type := {
  name : string;
  on : list trigger;
  jobs : list (string * job)
}.

Definition plain_step (n : option string) (u : option string)
  (w : list (string * string)) (r : list string) : step :=
  {| step_name := n; uses := u; with_ := w; run := r;
     step_if := None; continue_on_error := false |}.

Definition build : job :=
  {| runs_on := "ubuntu-latest";
     matrix := [("python-version", ["3.9"; "3.11"; "3.12"])];
     steps :=
       [ plain_step None (Some "actions/checkout@v4") [] [];
         plain_step (Some "Set up Python ${{ matrix.python-version }}")
           (Some "actions/setup-python@v5")
           [("python-version", "${{ matrix.python-version }}")] [];
         plain_step (Some "Install dependencies") None []
           [ "python -m pip cache purge";
             "python -m pip install --upgrade pip";
             "python -m pip install --upgrade setuptools" ];
         plain_step (Some "Test with pytest (without extras; only package)")
           None []
           [ "python -m pip install .[test]";
             "pytest aerosandbox" ];
         plain_step (Some "Test with pytest (with extras; only tutorials)")
           None []
           [ "python -m pip install .[full,test]";
             "py.test tutorial --nbval-lax --nbval-cell-timeout 120" ] ] |}.

Definition run_pytest : workflow :=
  {| name := "Tests";
     on := [ {| event := "push"; branches := ["**"] |};
             {| event := "pull_request"; branches := ["**"] |} ];
     jobs := [("build", build)] |}.

(** *** Reading the commands *)

(** The shell commands of a job, in the order they run. *)
Definition commands (j : job) : list string := flat_map run (steps j).

Inductive command_kind : Type :=
| CacheMaintenance      (* pip cache purge *)
| ToolUpgrade           (* pip install --upgrade <tool> *)
| PackageInstall        (* pip install .[extras]: the package itself *)
| TestInvocation        (* pytest / py.test *)
| OtherCommand.

Definition starts_with_dot (s : string) : bool :=
  match s with
  | String c _ => Ascii.eqb c "."
  | EmptyString => false
  end.

Definition classify (c : string) : command_kind :=
  match words c with
  | "python" :: "-m" :: "pip" :: "cache" :: _ => CacheMaintenance
  | "python" :: "-m" :: "pip" :: "install" :: "--upgrade" :: _ => ToolUpgrade
  | "python" :: "-m" :: "pip" :: "install" :: target :: _ =>
      if starts_with_dot target then PackageInstall else OtherCommand
  | "pytest" :: _ => TestInvocation
  | "py.test" :: _ => TestInvocation
  | _ => OtherCommand
  end.

Definition is_test (c : string) : bool :=
  match classify c with TestInvocation => true | _ => false end.

Definition is_install (c : string) : bool :=
  match classify c with
  | CacheMaintenance | ToolUpgrade | PackageInstall => true
  | _ => false
  end.

(** The arguments of a pytest command line that matter here. *)
Record pytest_args : Type := {
  targets : list string;
  nbval : bool;
  nbval_lax : bool;
  nbval_cell_timeout : option nat
}.

Definition no_args : pytest_args :=
  {| targets := []; nbval := false; nbval_lax := false;
     nbval_cell_timeout := None |}.

Fixpoint parse_args (ws : list string) (a : pytest_args) : option pytest_args :=
  match ws with
  | [] => Some a
  | "--nbval" :: r =>
      parse_args r {| targets := targets a; nbval := true;
                      nbval_lax := nbval_lax a;
                      nbval_cell_timeout := nbval_cell_timeout a |}
  | "--nbval-lax" :: r =>
      parse_args r {| targets := targets a; nbval := nbval a;
                      nbval_lax := true;
                      nbval_cell_timeout := nbval_cell_timeout a |}
  | "--nbval-cell-timeout" :: n :: r =>
      match nat_of_string n with
      | Some t =>
          parse_args r {| targets := targets a; nbval := nbval a;
                          nbval_lax := nbval_lax a;
                          nbval_cell_timeout := Some t |}
      | None => None
      end
  | w :: r =>
      parse_args r {| targets := targets a ++ [w]; nbval := nbval a;
                      nbval_lax := nbval_lax a;
                      nbval_cell_timeout := nbval_cell_timeout a |}
  end.

Definition parse_pytest (c : string) : option pytest_args :=
  match words c with
  | "pytest" :: r => parse_args r no_args
  | "py.test" :: r => parse_args r no_args
  | _ => None
  end.

(** *** The matrix *)

(** One instance of the job per value of its (single) matrix axis. *)
Definition matrix_instances (j : job) : list (string * string) :=
  flat_map (fun ax => map (fun v => (fst ax, v)) (snd ax)) (matrix j).

(** The value a [with:] entry takes in the instance [inst]: an entry
    written [${{ matrix.<axis> }}] takes the instance's value. *)
Definition instantiate (inst : string * string) (v : string) : string :=
  if String.eqb v ("${{ matrix." ++ fst inst ++ " }}") then snd inst else v.

(** *** How the platform runs a job

    The runner is the platform's side: what each command exits with,
    whether an action succeeds, and how a written [if:] condition
    evaluates.  A [run:] script is run by [bash -e]: it stops at the
    first command that exits non-zero, with that status.  A step without
    [if:] runs only while no earlier step has failed; a failed step
    fails the job unless it sets [continue-on-error]. *)
Record runner : Type := {
  exit_status : string -> Z;
  action_ok : string -> bool;
  condition : string -> bool
}.

Inductive conclusion : Type := Success | Failure.

Fixpoint run_script (r : runner) (cmds : list string) : Z :=
  match cmds with
  | [] => 0%Z
  | c :: rest =>
      if (exit_status r c =? 0)%Z then run_script r rest else exit_status r c
  end.

Definition step_ok (r : runner) (s : step) : bool :=
  match uses s with
  | Some a => action_ok r a
  | None => (run_script r (run s) =? 0)%Z
  end.

Definition step_runs (r : runner) (failed : bool) (s : step) : bool :=
  match step_if s with
  | None => negb failed
  | Some "always()" => true
  | Some "failure()" => failed
  | Some c => negb failed && condition r c
  end.

(** [failed] tells whether an earlier step has failed the job. *)
Fixpoint run_steps (r : runner) (failed : bool) (ss : list step) : bool :=
  match ss with
  | [] => failed
  | s :: rest =>
      if step_runs r failed s
      then if step_ok r s then run_steps r failed rest
           else run_steps r (if continue_on_error s then failed else true) rest
      else run_steps r failed rest
  end.

Definition run_job (r : runner) (j : job) : conclusion :=
  if run_steps r false (steps j) then Failure else Success.

End Workflow.

(** ** Arrays: the operations of [aerosandbox.numpy] the notebooks call

    Modelled from the spec: the external numerical library (the spec's
    "external collaborator"), which is not under src/.  Only the
    documented NumPy behaviour of [diff], [linspace], slicing, indexing
    and elementwise arithmetic with scalar broadcasting is written down,
    generically in the number type so that the same definitions serve
    the kernel (exact rationals) and the meaning of constraints (reals). *)

Module Np.

Inductive shape : Type := SScalar | SVec (n : nat).

Definition shape_eqb (a b : shape) : bool :=
  match a, b with
  | SScalar, SScalar => true
  | SVec n, SVec m => Nat.eqb n m
  | _, _ => false
  end.

(** Shape of an elementwise operation: a scalar broadcasts, two vectors
    must agree in length. *)
Definition broadcast (a b : shape) : option shape :=
  match a, b with
  | SScalar, s => Some s
  | s, SScalar => Some s
  | SVec n, SVec m => if Nat.eqb n m then Some (SVec n) else None
  end.

(** Python's index normalisation: a negative index counts from the end. *)
Definition from_end (n : nat) (i : Z) : Z :=
  if (i <? 0)%Z then (i + Z.of_nat n)%Z else i.

Definition clamp (n : nat) (i : Z) : nat :=
  Z.to_nat (Z.min (Z.max 0 (from_end n i)) (Z.of_nat n)).

Definition slice_bounds (n : nat) (lo hi : option Z) : nat * nat :=
  (match lo with Some i => clamp n i | None => 0%nat end,
   match hi with Some i => clamp n i | None => n end).

Definition slice_length (n : nat) (lo hi : option Z) : nat :=
  let '(l, h) := slice_bounds n lo hi in (h - l)%nat.

Definition index_in_range (n : nat) (i : Z) : bool :=
  ((0 <=? from_end n i) && (from_end n i <? Z.of_nat n))%Z.

Inductive array (T : Type) : Type :=
| Scalar (x : T)
| Vector (v : list T).
Arguments Scalar {T} x.
Arguments Vector {T} v.

Definition shape_of_array {T : Type} (a : array T) : shape :=
  match a with
  | Scalar _ => SScalar
  | Vector v => SVec (List.length v)
  end.

Section Ops.
Context {T : Type}.

(** [np.diff]: [out[i] = a[i+1] - a[i]]. *)
Fixpoint diff (sub : T -> T -> T) (v : list T) : list T :=
  match v with
  | a :: r =>
      match r with
      | b :: _ => sub b a :: diff sub r
      | [] => []
      end
  | [] => []
  end.

(** [v[lo:hi]]. *)
Definition slice (lo hi : option Z) (v : list T) : list T :=
  let '(l, h) := slice_bounds (List.length v) lo hi in
  firstn (h - l) (skipn l v).

(** [v[i]]; [None] is Python's [IndexError]. *)
Definition getitem (i : Z) (v : list T) : option T :=
  if index_in_range (List.length v) i
  then nth_error v (Z.to_nat (from_end (List.length v) i))
  else None.

Definition map_array (f : T -> T) (a : array T) : array T :=
  match a with
  | Scalar x => Scalar (f x)
  | Vector v => Vector (map f v)
  end.

Definition map2 (f : T -> T -> T) (v w : list T) : list T :=
  map (fun p => f (fst p) (snd p)) (combine v w).

(** Elementwise binary operation; [None] is a shape error. *)
Definition zip_array (f : T -> T -> T) (a b : array T) : option (array T) :=
  match a, b with
  | Scalar x, Scalar y => Some (Scalar (f x y))
  | Scalar x, Vector w => Some (Vector (map (f x) w))
  | Vector v, Scalar y => Some (Vector (map (fun x => f x y) v))
  | Vector v, Vector w =>
      if Nat.eqb (List.length v) (List.length w) then Some (Vector (map2 f v w))
      else None
  end.

End Ops.

(** [np.linspace(start, stop, num)]: [num] evenly spaced samples,
    [start + i * (stop - start) / (num - 1)]. *)
Section Linspace.
Context {T : Type}.
Variable of_Q : Q -> T.
Variables add sub mul div : T -> T -> T.

Definition of_nat (n : nat) : T := of_Q (inject_Z (Z.of_nat n)).

Definition linspace (start stop : T) (num : nat) : list T :=
  match num with
  | 0%nat => []
  | 1%nat => [start]
  | _ =>
      let step := div (sub stop start) (of_nat (num - 1)) in
      map (fun i => add start (mul (of_nat i) step)) (seq 0 num)
  end.

End Linspace.

End Np.

(** ** The kernel: names, values and the optimization context *)

Module Kernel.
Import Py Np.
Local Open Scope string_scope.

(** What a name of the notebook is bound to. *)
Inductive value : Type :=
| VNum (a : array Q)           (* a number or a numeric vector *)
| VVar (s : shape)             (* a decision variable of the context *)
| VModule (name : string)      (* an imported module *)
| VOpti                        (* the optimization context *)
| VObj.                        (* any other object *)

Definition env : Type := list (string * value).

Fixpoint lookup (e : env) (x : string) : option value :=
  match e with
  | [] => None
  | (y, v) :: r => if String.eqb x y then Some v else lookup r x
  end.

Definition bind (x : string) (v : value) (e : env) : env := (x, v) :: e.

Fixpoint keyword (kws : list (string * expr)) (k : string) : option expr :=
  match kws with
  | [] => None
  | (n, e) :: r => if String.eqb n k then Some e else keyword r k
  end.

(** An integer-valued expression: a literal, its negation, or a name
    bound to a whole number.  Slice bounds, indices and counts are read
    this way. *)
Fixpoint eval_int (e : env) (x : expr) : option Z :=
  match x with
  | Constant (CInt z) => Some z
  | UnaryOp USub a => option_map Z.opp (eval_int e a)
  | Name n =>
      match lookup e n with
      | Some (VNum (Scalar q)) =>
          if Pos.eqb (Qden (Qred q)) 1 then Some (Qnum (Qred q)) else None
      | _ => None
      end
  | _ => None
  end.

Definition eval_bound (e : env) (x : option expr) : option (option Z) :=
  match x with
  | None => Some None
  | Some b => option_map Some (eval_int e b)
  end.

Definition is_numpy (e : env) (f : expr) (meth : string) : bool :=
  match f with
  | Attribute (Name m) a =>
      match lookup e m with
      | Some (VModule "aerosandbox.numpy") => String.eqb a meth
      | _ => false
      end
  | _ => false
  end.

(** An exponent written as a non-negative integer literal. *)
Definition nonneg_int (x : expr) : option nat :=
  match x with
  | Constant (CInt z) => if (0 <=? z)%Z then Some (Z.to_nat z) else None
  | _ => None
  end.

(** *** Numeric evaluation, generic in the number type

    [rho] gives the decision variables their values; the other names
    come from the kernel's environment.  [None] means the expression
    has no numeric value: a shape error, an index out of range, or a
    form outside arithmetic. *)
Section Eval.
Context {T : Type}.
Variable of_Q : Q -> T.
Variables add sub mul div : T -> T -> T.
Variable opp : T -> T.
(** [x ** y] for an exponent that is no integer literal. *)
Variable rpow : option (T -> T -> T).

Fixpoint ipow (x : T) (n : nat) : T :=
  match n with
  | O => of_Q 1
  | S m => mul x (ipow x m)
  end.

Definition arith (op : operator) : option (T -> T -> T) :=
  match op with
  | Add => Some add
  | Sub => Some sub
  | Mult => Some mul
  | Div => Some div
  | Pow => rpow
  end.

Definition inject (a : array Q) : array T :=
  match a with
  | Scalar q => Scalar (of_Q q)
  | Vector v => Vector (map of_Q v)
  end.

Fixpoint eval (e : env) (rho : string -> option (array T)) (x : expr)
  : option (array T) :=
  match x with
  | Name n =>
      match lookup e n with
      | Some (VNum a) => Some (inject a)
      | Some (VVar _) => rho n
      | _ => None
      end
  | Constant (CInt z) => Some (Scalar (of_Q (inject_Z z)))
  | Constant (CFloat q) => Some (Scalar (of_Q q))
  | UnaryOp USub a => option_map (map_array opp) (eval e rho a)
  | BinOp l op r =>
      match op, nonneg_int r with
      | Pow, Some n =>
          option_map (map_array (fun b => ipow b n)) (eval e rho l)
      | _, _ =>
          match arith op, eval e rho l, eval e rho r with
          | Some f, Some a, Some b => zip_array f a b
          | _, _, _ => None
          end
      end
  | Subscript v (Slice lo hi) =>
      match eval e rho v, eval_bound e lo, eval_bound e hi with
      | Some (Vector w), Some l, Some h => Some (Vector (slice l h w))
      | _, _, _ => None
      end
  | Subscript v i =>
      match eval e rho v, eval_int e i with
      | Some (Vector w), Some k => option_map Scalar (getitem k w)
      | _, _ => None
      end
  | Call f [a] [] =>
      if is_numpy e f "diff"
      then match eval e rho a with
           | Some (Vector w) => Some (Vector (diff sub w))
           | _ => None
           end
      else None
  | Call f [a; b; n] [] =>
      if is_numpy e f "linspace"
      then match eval e rho a, eval e rho b, eval_int e n with
           | Some (Scalar p), Some (Scalar q), Some k =>
               if (0 <=? k)%Z
               then Some (Vector (linspace of_Q add sub mul div p q (Z.to_nat k)))
               else None
           | _, _, _ => None
           end
      else None
  | _ => None
  end.

End Eval.

(** The kernel evaluates over exact rationals; a power with an exponent
    that is no integer literal has no rational value. *)
Definition qeval (e : env) (x : expr) : option (array Q) :=
  option_map (map_array Qred)
    (eval (fun q => q) Qplus Qminus Qmult Qdiv Qopp None e (fun _ => None) x).

(** The meaning of an expression under an assignment of real values to
    the decision variables. *)
Definition assignment : Type := string -> option (array R).

Definition denote (e : env) (rho : assignment) (x : expr) : option (array R) :=
  eval Q2R Rplus Rminus Rmult Rdiv Ropp (Some Rpower) e rho x.

Definition rel (op : cmpop) : R -> R -> Prop :=
  match op with
  | OpEq => @eq R
  | OpNotEq => fun a b => a <> b
  | OpLt => Rlt
  | OpLtE => Rle
  | OpGt => Rgt
  | OpGtE => Rge
  end.

(** An elementwise relation holds when it holds at every entry. *)
Definition related (P : R -> R -> Prop) (a b : array R) : Prop :=
  match a, b with
  | Scalar x, Scalar y => P x y
  | Scalar x, Vector w => Forall (P x) w
  | Vector v, Scalar y => Forall (fun x => P x y) v
  | Vector v, Vector w => Forall2 P v w
  end.

(** [rho] satisfies the constraint expression [c]. *)
Definition holds (e : env) (rho : assignment) (c : expr) : Prop :=
  match c with
  | Compare l op r =>
      match denote e rho l, denote e rho r with
      | Some a, Some b => related (rel op) a b
      | _, _ => False
      end
  | _ => False
  end.

(** *** Shapes

    The shape an expression evaluates to; [None] when some operation in
    it is ill-shaped or some index is out of range. *)
Fixpoint shape_of (e : env) (x : expr) : option shape :=
  match x with
  | Name n =>
      match lookup e n with
      | Some (VNum a) => Some (shape_of_array a)
      | Some (VVar s) => Some s
      | _ => None
      end
  | Constant (CInt _) => Some SScalar
  | Constant (CFloat _) => Some SScalar
  | UnaryOp USub a => shape_of e a
  | BinOp l op r =>
      match op, nonneg_int r with
      | Pow, Some _ => shape_of e l
      | _, _ =>
          match shape_of e l, shape_of e r with
          | Some a, Some b => broadcast a b
          | _, _ => None
          end
      end
  | Subscript v (Slice lo hi) =>
      match shape_of e v, eval_bound e lo, eval_bound e hi with
      | Some (SVec n), Some l, Some h => Some (SVec (slice_length n l h))
      | _, _, _ => None
      end
  | Subscript v i =>
      match shape_of e v, eval_int e i with
      | Some (SVec n), Some k =>
          if index_in_range n k then Some SScalar else None
      | _, _ => None
      end
  | Call f [a] [] =>
      if is_numpy e f "diff"
      then match shape_of e a with
           | Some (SVec n) => Some (SVec (n - 1))
           | _ => None
           end
      else None
  | Call f [a; b; n] [] =>
      if is_numpy e f "linspace"
      then match shape_of e a, shape_of e b, eval_int e n with
           | Some SScalar, Some SScalar, Some k =>
               if (0 <=? k)%Z then Some (SVec (Z.to_nat k)) else None
           | _, _, _ => None
           end
      else None
  | _ => None
  end.

(** The shape of a constraint [l op r]: both sides have a shape and the
    two broadcast. *)
Definition constraint_shape (e : env) (c : expr) : option shape :=
  match c with
  | Compare l _ r =>
      match shape_of e l, shape_of e r with
      | Some a, Some b => broadcast a b
      | _, _ => None
      end
  | _ => None
  end.

(** An assignment gives every declared decision variable a value of its
    declared shape. *)
Definition respects (e : env) (rho : assignment) : Prop :=
  forall n s, lookup e n = Some (VVar s) ->
    exists a, rho n = Some a /\ shape_of_array a = s.

(** *** The optimization context

    Modelled from the spec: the optimization context object
    ([asb.Opti]), whose class is not under src/.  The spec describes it
    as holding decision variables, each with an initial guess, and
    accumulated constraints; the notebooks say that the length of a
    variable is that of its initial guess unless [n_vars] fixes it.  The
    discretisation behind [constrain_derivative] is not described, so a
    derivative constraint is kept as written. *)
Record variable_decl : Type := {
  var_name : option string;
  var_shape : shape;
  init_guess : option (array Q)
}.

Inductive constraint : Type :=
| Relation (c : expr)
| DerivativeConstraint (derivative variable with_respect_to : expr).

Record context : Type := {
  variables : list variable_decl;
  constraints : list constraint;
  objective : option expr
}.

Definition empty_context : context :=
  {| variables := []; constraints := []; objective := None |}.

Record kernel : Type := {
  names : env;
  opti : context;
  printed : list (list expr)
}.

Definition initial : kernel :=
  {| names := []; opti := empty_context; printed := [] |}.

Definition set_names (f : env -> env) (k : kernel) : kernel :=
  {| names := f (names k); opti := opti k; printed := printed k |}.

Definition set_opti (c : context) (k : kernel) : kernel :=
  {| names := names k; opti := c; printed := printed k |}.

Definition bind_target (t : option string) (v : value) (k : kernel) : kernel :=
  match t with
  | Some x => set_names (bind x v) k
  | None => k
  end.

(** [opti.variable(init_guess=..., n_vars=...)]. *)
Definition variable (t : option string) (kws : list (string * expr))
  (k : kernel) : option kernel :=
  let guess :=
    match keyword kws "init_guess" with
    | Some g => qeval (names k) g
    | None => None
    end in
  let n :=
    match keyword kws "n_vars" with
    | Some n => option_map Z.to_nat (eval_int (names k) n)
    | None => None
    end in
  let s :=
    match n, guess with
    | Some n, Some (Vector w) =>
        if Nat.eqb (List.length w) n then Some (SVec n) else None
    | Some n, _ => Some (SVec n)
    | None, Some a => Some (shape_of_array a)
    | None, None => None
    end in
  match s with
  | Some s =>
      Some (bind_target t (VVar s)
              (set_opti
                 {| variables :=
                      variables (opti k)
                      ++ [{| var_name := t; var_shape := s; init_guess := guess |}];
                    constraints := constraints (opti k);
                    objective := objective (opti k) |} k))
  | None => None
  end.

Definition add_constraints (cs : list constraint) (k : kernel) : kernel :=
  set_opti {| variables := variables (opti k);
              constraints := constraints (opti k) ++ cs;
              objective := objective (opti k) |} k.

(** [opti.subject_to(c)]: a list states each of its elements. *)
Definition subject_to (arg : expr) (k : kernel) : kernel :=
  match arg with
  | PyList cs => add_constraints (map Relation cs) k
  | c => add_constraints [Relation c] k
  end.

(** [opti.constrain_derivative(derivative=, variable=, with_respect_to=)]. *)
Definition constrain_derivative (kws : list (string * expr)) (k : kernel)
  : option kernel :=
  match keyword kws "derivative", keyword kws "variable",
        keyword kws "with_respect_to" with
  | Some d, Some v, Some t =>
      Some (add_constraints [DerivativeConstraint d v t] k)
  | _, _, _ => None
  end.

Definition minimize (f : expr) (k : kernel) : kernel :=
  set_opti {| variables := variables (opti k);
              constraints := constraints (opti k);
              objective := Some f |} k.

(** A method call on the context; [t] is the name the result is
    assigned to, if any.  [solve] hands the problem to the solver and
    binds the solution; the context keeps what it holds. *)
Definition opti_call (t : option string) (meth : string) (args : list expr)
  (kws : list (string * expr)) (k : kernel) : option kernel :=
  if String.eqb meth "variable" then
    match args with
    | [] => variable t kws k
    | _ => None
    end
  else if String.eqb meth "subject_to" then
    match args with
    | [c] => Some (bind_target t VObj (subject_to c k))
    | _ => None
    end
  else if String.eqb meth "constrain_derivative" then
    match args with
    | [] => option_map (bind_target t VObj) (constrain_derivative kws k)
    | _ => None
    end
  else if String.eqb meth "minimize" then
    match args with
    | [f] => Some (bind_target t VObj (minimize f k))
    | _ => None
    end
  else if String.eqb meth "solve" then Some (bind_target t VObj k)
  else None.

(** The value a right-hand side is stored as. *)
Definition value_of (k : kernel) (x : expr) : value :=
  match qeval (names k) x with
  | Some a => VNum a
  | None => VObj
  end.

(** [asb.Opti()]: the receiver is the imported library and the method
    its context class. *)
Definition constructs_context (v : value) (meth : string) : bool :=
  match v with
  | VModule m => String.eqb m "aerosandbox" && String.eqb meth "Opti"
  | _ => false
  end.

(** A call statement, bound to [t] when it is an assignment. *)
Definition call (t : option string) (f : expr) (args : list expr)
  (kws : list (string * expr)) (k : kernel) : option kernel :=
  match f with
  | Attribute (Name r) meth =>
      match lookup (names k) r with
      | Some VOpti => opti_call t meth args kws k
      | Some v =>
          if constructs_context v meth
          then Some (bind_target t VOpti (set_opti empty_context k))
          else Some (bind_target t (value_of k (Call f args kws)) k)
      | None => Some (bind_target t VObj k)
      end
  | Name g =>
      if String.eqb g "print"
      then Some (bind_target t VObj
                   {| names := names k; opti := opti k;
                      printed := printed k ++ [args] |})
      else Some (bind_target t VObj k)
  | _ => Some (bind_target t VObj k)
  end.

(** Whether a statement constructs a new context, which replaces the
    one the kernel holds. *)
Definition new_context (e : env) (s : stmt) : bool :=
  match s with
  | Assign _ (Call (Attribute (Name r) meth) _ _)
  | ExprStmt (Call (Attribute (Name r) meth) _ _) =>
      match lookup e r with
      | Some v => constructs_context v meth
      | None => false
      end
  | _ => false
  end.

(** [c'] holds everything [c] holds, in the same order, and maybe more. *)
Definition extends (c c' : context) : Prop :=
  (exists vs, variables c' = (variables c ++ vs)%list)
  /\ (exists cs, constraints c' = (constraints c ++ cs)%list).

(** What a statement other than [Try] does when nothing raises; [None]
    is a call the context rejects. *)
Definition effect (s : stmt) (k : kernel) : option kernel :=
  match s with
  | Import_ m a =>
      Some (set_names (bind (match a with Some n => n | None => m end)
                         (VModule m)) k)
  | Assign x (Call f args kws) => call (Some x) f args kws k
  | Assign x v => Some (set_names (bind x (value_of k v)) k)
  | ExprStmt (Call f args kws) => call None f args kws k
  | ExprStmt _ => Some k
  | FunctionDef f _ _ => Some (set_names (bind f VObj) k)
  | Return _ => Some k
  | Try _ _ _ => Some k
  end.

(** *** Execution with exceptions

    The library is the external side: it decides whether executing a
    statement raises, and with which exception.  An exception unwinds
    to the nearest enclosing [try] whose clause catches it, else it ends
    the run. *)
Record library : Type := {
  raises : stmt -> kernel -> option string
}.

Inductive outcome : Type :=
| Done (k : kernel)
| Raised (ename : string) (k : kernel).

Definition catches (exc_type : option string) (ename : string) : bool :=
  match exc_type with
  | None => true
  | Some t => String.eqb t ename || String.eqb t "Exception"
  end.

Definition simple (L : library) (s : stmt) (k : kernel) : outcome :=
  match raises L s k with
  | Some e => Raised e k
  | None =>
      match effect s k with
      | Some k' => Done k'
      | None => Raised "TypeError" k
      end
  end.

Fixpoint exec (L : library) (s : stmt) (k : kernel) : outcome :=
  let block :=
    fix block (ss : list stmt) (k : kernel) : outcome :=
      match ss with
      | [] => Done k
      | s :: rest =>
          match exec L s k with
          | Done k' => block rest k'
          | Raised e k' => Raised e k'
          end
      end in
  match s with
  | Try body exc_type handler =>
      match block body k with
      | Done k' => Done k'
      | Raised e k' =>
          if catches exc_type e then block handler k' else Raised e k'
      end
  | _ => simple L s k
  end.

(** A block of statements, and so a code cell or a whole script. *)
Fixpoint run (L : library) (ss : list stmt) (k : kernel) : outcome :=
  match ss with
  | [] => Done k
  | s :: rest =>
      match exec L s k with
      | Done k' => run L rest k'
      | Raised e k' => Raised e k'
      end
  end.

(** Whether a [try] occurs in a statement, at any depth. *)
Fixpoint has_try (s : stmt) : bool :=
  match s with
  | Try _ _ _ => true
  | FunctionDef _ _ body => existsb has_try body
  | _ => false
  end.

(** *** The steps of a tutorial script *)

Inductive phase : Type :=
| ImportLibrary
| DeclareVariable
| StateConstraint
| InvokeSolver
| PrintResult.


Definition method_name (x : expr) : option string :=
  match x with
  | Call (Attribute _ meth) _ _ => Some meth
  | Call (Name f) _ _ => Some f
  | _ => None
  end.

Definition phase_of_call (x : expr) : option phase :=
  match method_name x with
  | Some "variable" => Some DeclareVariable
  | Some "subject_to" => Some StateConstraint
  | Some "constrain_derivative" => Some StateConstraint
  | Some "solve" => Some InvokeSolver
  | Some "print" => Some PrintResult
  | _ => None
  end.

(** The step a statement performs, if it is one of the five; imports of
    other modules, constants, function definitions and the objective
    are none of them. *)
Definition phase_of (s : stmt) : option phase :=
  match s with
  | Import_ m _ =>
      match Text.strip_prefix "aerosandbox" m with
      | Some _ => Some ImportLibrary
      | None => None
      end
  | Assign _ v => phase_of_call v
  | ExprStmt v => phase_of_call v
  | _ => None
  end.




End Kernel.

(** ** The two notebooks and the workflow, read through the models *)

Module Tutorial.
Import Py Np Kernel Text Nb Workflow.
Local Open Scope string_scope.

Definition notebooks : list notebook := [Rocket.notebook; Gradients.notebook].

(** A library under which nothing raises. *)
Definition quiet : library := {| raises := fun _ _ => None |}.

Definition state_of (o : outcome) : kernel :=
  match o with Done k => k | Raised _ k => k end.

Definition is_solve (s : stmt) : bool :=
  match phase_of s with Some InvokeSolver => true | _ => false end.

(** A library whose solver raises [ename] and nothing else does. *)
Definition failing_solver (ename : string) : library :=
  {| raises := fun s _ => if is_solve s then Some ename else None |}.

(** The statements before the first solver call, the call, and the
    statements after it. *)
Fixpoint split_at_solve (ss : list stmt)
  : option (list stmt * stmt * list stmt) :=
  match ss with
  | [] => None
  | s :: rest =>
      if is_solve s then Some ([], s, rest)
      else match split_at_solve rest with
           | Some (pre, c, post) => Some (s :: pre, c, post)
           | None => None
           end
  end.



(** *** The rocket problem *)

(** The kernel once the first code cell has run: the constants and the
    four decision variables. *)
Definition rocket_setup : kernel :=
  state_of (Kernel.run quiet (statements Rocket.cell_setup) initial).

Definition rocket_env : env := names rocket_setup.

(** The statements of the rocket notebook up to and including the cell
    that invokes the solver. *)
Definition rocket_through_solve : list stmt :=
  statements Rocket.cell_setup ++ statements Rocket.cell_dynamics
  ++ statements Rocket.cell_solve.

(** The kernel once that cell has run, and at the end of the notebook. *)
Definition rocket_at_solve : kernel :=
  state_of (Kernel.run quiet rocket_through_solve initial).

(** The derivative constraints of the last code cell, as written. *)
Definition rocket_derivative_constraints : list constraint :=
  [ DerivativeConstraint (Name "velocity") (Name "y") (Name "time");
    DerivativeConstraint
      (BinOp (BinOp (Name "u") Div (Name "mass")) Sub (Name "g"))
      (Name "velocity") (Name "time");
    DerivativeConstraint
      (BinOp (UnaryOp USub (Name "alpha")) Mult (Name "u"))
      (Name "mass") (Name "time") ].

Definition rocket_final : kernel :=
  state_of (Kernel.run quiet (script Rocket.notebook) initial).

(** The constants [time] and [alpha] as the first cell computed them. *)
Definition rocket_time : list Q :=
  match lookup rocket_env "time" with
  | Some (VNum (Vector t)) => t
  | _ => []
  end.

Definition rocket_alpha : Q :=
  match lookup rocket_env "alpha" with
  | Some (VNum (Scalar a)) => a
  | _ => 0
  end.

(** A rational greater than zero. *)
Definition is_positive (q : Q) : bool := negb (Qle_bool q 0).

(** An assignment with rational entries, given name by name. *)
Fixpoint rational (vals : list (string * list Q)) : assignment :=
  fun n =>
    match vals with
    | [] => None
    | (x, v) :: rest =>
        if String.eqb n x then Some (Vector (map Q2R v)) else rational rest n
    end.

(** The mass constraint checked on rational entries by computation. *)
Definition mass_dynamics_check (m u : list Q) : bool :=
  Nat.eqb (List.length (slice None (Some (-1)%Z) u))
    (List.length (diff Qminus rocket_time))
  && Nat.eqb (List.length (diff Qminus m))
       (List.length (diff Qminus rocket_time))
  && forallb (fun p => Qeq_bool (fst p) (snd p))
       (combine (diff Qminus m)
          (map2 Qmult
             (map (Qmult (- rocket_alpha)) (slice None (Some (-1)%Z) u))
             (diff Qminus rocket_time))).

(** A trajectory under constant thrust: [u = 2943] burns [100/99] of
    mass per time step. *)
Definition constant_thrust : list Q := repeat 2943%Q 100.

Definition constant_burn : list Q :=
  map (fun i => (500000 - inject_Z (Z.of_nat i) * (100 # 99))%Q) (seq 0 100).

(** The three forward-Euler constraints of the second code cell. *)
Definition dynamics : list expr :=
  [Rocket.y_dynamics; Rocket.velocity_dynamics; Rocket.mass_dynamics].

(** The initial guesses of the named variables, a scalar guess repeated
    over the length of its variable. *)
Definition initial_guesses (c : context) : list (string * list Q) :=
  flat_map (fun v =>
              match var_name v, var_shape v, init_guess v with
              | Some x, SVec _, Some (Vector w) => [(x, w)]
              | Some x, SVec n, Some (Scalar q) => [(x, repeat q n)]
              | _, _, _ => []
              end) (variables c).

Fixpoint assoc (vals : list (string * list Q)) (x : string)
  : option (list Q) :=
  match vals with
  | [] => None
  | (y, v) :: rest => if String.eqb x y then Some v else assoc rest x
  end.

(** Every decision variable bound in [e] has an entry of its length. *)
Definition shapes_match (e : env) (vals : list (string * list Q)) : bool :=
  forallb (fun b =>
             match snd b with
             | VVar s =>
                 match assoc vals (fst b) with
                 | Some v => shape_eqb (SVec (List.length v)) s
                 | None => false
                 end
             | _ => true
             end) e.

Definition has_shape (e : env) (c : expr) : bool :=
  match constraint_shape e c with Some _ => true | None => false end.

Definition relations (c : context) : list expr :=
  flat_map (fun x => match x with
                     | Relation r => [r]
                     | DerivativeConstraint _ _ _ => []
                     end) (constraints c).

Definition sides (c : expr) : option (expr * expr) :=
  match c with
  | Compare l _ r => Some (l, r)
  | _ => None
  end.

(** A statement that neither sits in a [try] nor calls a method named
    [Opti], so that it constructs no new context whatever its receiver
    is bound to. *)
Definition keeps_context (s : stmt) : bool :=
  negb (has_try s)
  && match s with
     | Assign _ (Call (Attribute _ meth) _ _)
     | ExprStmt (Call (Attribute _ meth) _ _) => negb (String.eqb meth "Opti")
     | _ => true
     end.

(** *** The gradient example *)

(** The kernel when the third code cell starts. *)
Definition gradients_before_solve : kernel :=
  state_of (Kernel.run quiet
              (statements Gradients.cell_setup
               ++ statements Gradients.cell_gradient) initial).

(** The single line a code cell wrote to standard output. *)
Definition stdout_of (nb : notebook) (i : nat) : option string :=
  match nth_error (code_cells nb) i with
  | Some (_, [Stream "stdout" [t]]) => Some (chomp t)
  | _ => None
  end.

(** The solver output recorded in the third code cell. *)
Definition x_optimal : option Q :=
  match stdout_of Gradients.notebook 2 with
  | Some t =>
      match strip_prefix "x_optimal = " t with
      | Some d => decimal_of_string d
      | None => None
      end
  | None => None
  end.

(** The closed-form value as the fourth code cell printed it. *)
Definition printed_closed_form : option Q :=
  match stdout_of Gradients.notebook 3 with
  | Some t => decimal_of_string t
  | None => None
  end.

(** A function of one parameter whose body is a single [return]. *)
Definition function_body (s : stmt) : option (string * expr) :=
  match s with
  | FunctionDef _ [p] [Return e] => Some (p, e)
  | _ => None
  end.

(** The function applied to a real number. *)
Definition apply_function (s : stmt) (x : R) : option R :=
  match function_body s with
  | Some (p, e) =>
      match denote [(p, VVar SScalar)]
              (fun n => if String.eqb n p then Some (Scalar x) else None) e with
      | Some (Scalar y) => Some y
      | _ => None
      end
  | None => None
  end.

(** The real number an expression without names denotes. *)
Definition real_of (x : expr) : option R :=
  match denote [] (fun _ => None) x with
  | Some (Scalar y) => Some y
  | _ => None
  end.

(** [d] is the gradient at [x] of the function [s] defines: what
    [cas.gradient(f(dummy), dummy)], wrapped as [dfdx], evaluates to. *)
Definition is_gradient (s : stmt) (x d : R) : Prop :=
  exists F : R -> R,
    (forall t, apply_function s t = Some (F t)) /\ derivable_pt_lim F x d.

(** The closed-form solution of [4 * x ^ 3 = 1]. *)
Definition root : R := Rpower (1 / 4) (1 / 3).

(** *** The workflow's test invocations *)

Definition test_commands : list string := filter is_test (commands build).

(** The job written without any failure handling of its own. *)
Definition no_failure_handling (s : step) : bool :=
  match step_if s with
  | None => negb (continue_on_error s)
  | Some _ => false
  end.

End Tutorial.

(** ** Rational assignments, checked by computation *)

Module Rational.
Import Py Np Kernel Tutorial.
Local Open Scope string_scope.

(** The decision variables at rational values, as arrays over [Q]. *)
Definition qrho (vals : list (string * list Q)) : string -> option (array Q) :=
  fun n => option_map Vector (assoc vals n).

(** The value of an expression at a rational assignment, computed
    exactly. *)
Definition qdenote (e : env) (vals : list (string * list Q)) (x : expr)
  : option (array Q) :=
  eval (fun q => q) Qplus Qminus Qmult Qdiv Qopp None e (qrho vals) x.

Definition qrel (op : cmpop) (a b : Q) : bool :=
  match op with
  | OpEq => Qeq_bool a b
  | OpNotEq => negb (Qeq_bool a b)
  | OpLt => negb (Qle_bool b a)
  | OpLtE => Qle_bool a b
  | OpGt => negb (Qle_bool a b)
  | OpGtE => Qle_bool b a
  end.

Definition qrelated (p : Q -> Q -> bool) (a b : array Q) : bool :=
  match a, b with
  | Scalar x, Scalar y => p x y
  | Scalar x, Vector w => forallb (p x) w
  | Vector v, Scalar y => forallb (fun x => p x y) v
  | Vector v, Vector w =>
      Nat.eqb (List.length v) (List.length w)
      && forallb (fun q => p (fst q) (snd q)) (combine v w)
  end.

(** Whether the rational assignment satisfies the constraint; [None]
    when a side has no rational value. *)
Definition qholds (e : env) (vals : list (string * list Q)) (c : expr)
  : option bool :=
  match c with
  | Compare l op r =>
      match qdenote e vals l, qdenote e vals r with
      | Some a, Some b => Some (qrelated (qrel op) a b)
      | _, _ => None
      end
  | _ => None
  end.

End Rational.

(** ** The rocket problem as the solver receives it *)

Module RocketProblem.
Import Py Np Kernel Tutorial Rational.
Local Open Scope string_scope.

(** The boundary conditions of the third code cell, as written. *)
Definition y_start : expr :=
  Compare (Subscript (Name "y") (int 0)) OpEq (int 0).

Definition velocity_start : expr :=
  Compare (Subscript (Name "velocity") (int 0)) OpEq (int 0).

Definition mass_start : expr :=
  Compare (Subscript (Name "mass") (int 0)) OpEq (Name "mass_initial").

Definition y_end : expr :=
  Compare (Subscript (Name "y") (UnaryOp USub (int 1))) OpEq (Name "y_final").

(** The relations the context holds when [opti.solve] is called. *)
Definition stated : list expr := relations (opti rocket_at_solve).

(** An assignment is feasible when it satisfies every stated relation. *)
Definition feasible (rho : assignment) : Prop :=
  Forall (holds rocket_env rho) stated.

(** The objective handed to [opti.minimize]. *)
Definition rocket_objective : option expr := objective (opti rocket_at_solve).

Definition sum (v : list R) : R := fold_right Rplus 0%R v.

(** All stated relations checked on a rational assignment. *)
Definition all_hold (vals : list (string * list Q)) : bool :=
  forallb (fun c => match qholds rocket_env vals c with
                    | Some true => true
                    | _ => false
                    end) stated.

(** A boost and a coast: all the thrust is spent in the first time
    step, which brings the velocity to [launch_speed]; from then on the
    rocket coasts under gravity with its engine off, and [launch_speed]
    is such that the altitude reaches [y_final] at the last grid
    point. *)
Definition dt : Q := 100 # 99.

Definition launch_speed : Q :=
  Qred ((99000 + (981 # 100) * dt * 4753) / 98).

Definition coast_mass : Q :=
  Qred (500000 * (1 - (launch_speed + (981 # 100) * dt) * rocket_alpha)).

Definition climb : list (string * list Q) :=
  let grid := seq 0 100 in
  let speed i :=
    match i with
    | O => 0%Q
    | S k => Qred (launch_speed - (981 # 100) * dt * inject_Z (Z.of_nat k))
    end in
  let height i :=
    match i with
    | O => 0%Q
    | S k => Qred (dt * (inject_Z (Z.of_nat k) * launch_speed
                         - (981 # 100) * dt
                           * inject_Z (Z.of_nat (k * (k - 1) / 2))))
    end in
  [ ("y", map height grid);
    ("velocity", map speed grid);
    ("mass", map (fun i => match i with O => 500000%Q | S _ => coast_mass end)
               grid);
    ("u", map (fun i => match i with
                        | O => Qred ((launch_speed / dt + (981 # 100)) * 500000)
                        | S _ => 0%Q
                        end) grid) ].

(** The entries a rational assignment gives a variable. *)
Definition entries (vals : list (string * list Q)) (n : string) : list Q :=
  match assoc vals n with
  | Some v => v
  | None => []
  end.

(** The assignment of the initial guesses the notebook declares. *)
Definition guess : list (string * list Q) :=
  initial_guesses (opti rocket_setup).

(** The control vector with its last entry replaced. *)
Definition set_last (x : R) (us : list R) : list R := removelast us ++ [x].

(** [rho] with the control vector set to [us]. *)
Definition with_u (rho : assignment) (us : list R) : assignment :=
  fun n => if String.eqb n "u" then Some (Vector us) else rho n.

End RocketProblem.

(** ** What a run of a job starts *)

Module WorkflowRun.
Import Workflow Tutorial.
Local Open Scope string_scope.

(** Something a job starts: an action of a [uses:] step or a command of
    a [run:] script. *)
Inductive started : Type :=
| Used (action : string)
| Ran (command : string).

Definition item_ok (r : runner) (x : started) : bool :=
  match x with
  | Used a => action_ok r a
  | Ran c => (exit_status r c =? 0)%Z
  end.

(** The commands [bash -e] starts: up to and including the first one
    that exits non-zero. *)
Fixpoint script_started (r : runner) (cmds : list string) : list string :=
  match cmds with
  | [] => []
  | c :: rest =>
      if (exit_status r c =? 0)%Z then c :: script_started r rest else [c]
  end.

Definition step_items (s : step) : list started :=
  match uses s with
  | Some a => [Used a]
  | None => map Ran (run s)
  end.

Definition step_started (r : runner) (s : step) : list started :=
  match uses s with
  | Some a => [Used a]
  | None => map Ran (script_started r (run s))
  end.

(** What the steps start, following [run_steps] step by step. *)
Fixpoint steps_started (r : runner) (failed : bool) (ss : list step)
  : list started :=
  match ss with
  | [] => []
  | s :: rest =>
      if step_runs r failed s
      then step_started r s
           ++ (if step_ok r s then steps_started r failed rest
               else steps_started r
                      (if continue_on_error s then failed else true) rest)
      else steps_started r failed rest
  end.

Definition job_started (r : runner) (j : job) : list started :=
  steps_started r false (steps j).

(** Everything the job could start, in order. *)
Definition job_items (j : job) : list started := flat_map step_items (steps j).

(** A list of items cut after its first failing item. *)
Fixpoint through_first_failure (r : runner) (l : list started)
  : list started :=
  match l with
  | [] => []
  | x :: rest =>
      if item_ok r x then x :: through_first_failure r rest else [x]
  end.

(** *** Branch filters

    The platform's filter patterns: [*] matches any run of characters
    other than [/], [**] any run of characters, and any other character
    itself.  A trigger with a [branches:] filter fires when the branch
    matches one of its patterns. *)
Inductive token : Type :=
| Lit (c : ascii)
| Star
| StarStar.

Definition is_star (c : ascii) : bool := Ascii.eqb c "*".
Definition is_slash (c : ascii) : bool := Ascii.eqb c "/".

Fixpoint tokens (p : string) : list token :=
  match p with
  | EmptyString => []
  | String c rest =>
      if is_star c
      then match rest with
           | String d rest' =>
               if is_star d then StarStar :: tokens rest'
               else Star :: tokens rest
           | EmptyString => [Star]
           end
      else Lit c :: tokens rest
  end.

Fixpoint matches (ts : list token) (s : string) : bool :=
  match ts with
  | [] => match s with EmptyString => true | _ => false end
  | Lit c :: ts' =>
      match s with
      | String d rest => Ascii.eqb c d && matches ts' rest
      | EmptyString => false
      end
  | Star :: ts' =>
      (fix star (s : string) : bool :=
         matches ts' s
         || match s with
            | String d rest => negb (is_slash d) && star rest
            | EmptyString => false
            end) s
  | StarStar :: ts' =>
      (fix starstar (s : string) : bool :=
         matches ts' s
         || match s with
            | String _ rest => starstar rest
            | EmptyString => false
            end) s
  end.

Definition fires (t : trigger) (ev branch : string) : bool :=
  String.eqb (event t) ev
  && existsb (fun p => matches (tokens p) branch) (branches t).

Definition triggered (w : workflow) (ev branch : string) : bool :=
  existsb (fun t => fires t ev branch) (on w).

End WorkflowRun.

(** ** The rocket problem at other values of its constants

    The kernel evaluates the first cell in exact rationals, where NumPy
    evaluates it in binary floating point: there [np.diff(time)] is not
    exactly [100/99] at every entry, [9.81] is the nearest double, and
    [alpha] is not exactly [1/2943].  The constraints read these numbers
    only by name, so a property that is to hold of the notebook as
    NumPy runs it is stated for every value the five constants may
    have. *)

Module RocketConstants.
Import Py Np Kernel Tutorial RocketProblem.
Local Open Scope string_scope.

Record constants : Type := {
  time : list Q;
  g : Q;
  alpha : Q;
  mass_initial : Q;
  y_final : Q
}.

(** The kernel's environment after the first cell, with the five
    constants bound to the given values; every other name is as the
    cell leaves it. *)
Definition at_constants (k : constants) : env :=
  bind "time" (VNum (Vector (time k)))
    (bind "g" (VNum (Scalar (g k)))
       (bind "alpha" (VNum (Scalar (alpha k)))
          (bind "mass_initial" (VNum (Scalar (mass_initial k)))
             (bind "y_final" (VNum (Scalar (y_final k))) rocket_env)))).

Definition number (e : env) (n : string) : Q :=
  match lookup e n with
  | Some (VNum (Scalar q)) => q
  | _ => 0
  end.

(** The constants as the kernel computes them. *)
Definition computed : constants :=
  {| time := rocket_time;
     g := number rocket_env "g";
     alpha := number rocket_env "alpha";
     mass_initial := number rocket_env "mass_initial";
     y_final := number rocket_env "y_final" |}.

(** [np.diff(time)]: the time steps. *)
Definition steps (k : constants) : list R := map Q2R (diff Qminus (time k)).


(** Whether all the time steps are positive, by computation. *)
Definition increasing (k : constants) : bool :=
  forallb is_positive (diff Qminus (time k)).

End RocketConstants.

(** * Properties *)

(** ** Arrays *)

Module NpFacts.
Import Np.

Section Lists.
Context {T : Type}.
Variable sub : T -> T -> T.

Lemma diff_length (v : list T) :
  List.length (diff sub v) = (List.length v - 1)%nat.
Proof.
  induction v as [|a r IH]; [reflexivity|].
  destruct r as [|b r']; [reflexivity|].
  change (diff sub (a :: b :: r')) with (sub b a :: diff sub (b :: r')).
  simpl List.length in *. rewrite IH. lia.
Qed.

Lemma diff_nth (v : list T) (d : T) :
  forall i, (S i < List.length v)%nat ->
    nth i (diff sub v) d = sub (nth (S i) v d) (nth i v d).
Proof.
  induction v as [|a r IH]; intros i Hi; [simpl in Hi; lia|].
  destruct r as [|b r']; [simpl in Hi; lia|].
  change (diff sub (a :: b :: r')) with (sub b a :: diff sub (b :: r')).
  destruct i as [|j]; [reflexivity|].
  change (nth (S j) (sub b a :: diff sub (b :: r')) d)
    with (nth j (diff sub (b :: r')) d).
  rewrite IH by (simpl in *; lia). reflexivity.
Qed.

Lemma clamp_last (n : nat) : clamp n (-1) = (n - 1)%nat.
Proof.
  unfold clamp, from_end.
  change (-1 <? 0)%Z with true. cbv iota. lia.
Qed.

Lemma slice_drop_last (v : list T) :
  slice None (Some (-1)%Z) v = firstn (List.length v - 1) v.
Proof.
  unfold slice, slice_bounds. rewrite clamp_last, Nat.sub_0_r. reflexivity.
Qed.

Lemma slice_has_length (lo hi : option Z) (v : list T) :
  List.length (slice lo hi v) = slice_length (List.length v) lo hi.
Proof.
  unfold slice, slice_length.
  destruct (slice_bounds (List.length v) lo hi) as [l h] eqn:E.
  rewrite length_firstn, length_skipn.
  assert (h <= List.length v)%nat.
  { unfold slice_bounds in E. inversion E; subst.
    destruct hi as [i|]; [|lia].
    unfold clamp, from_end. destruct (i <? 0)%Z; lia. }
  lia.
Qed.

Lemma map2_length (f : T -> T -> T) (v w : list T) :
  List.length v = List.length w -> List.length (map2 f v w) = List.length v.
Proof.
  intros H. unfold map2. rewrite length_map, length_combine. lia.
Qed.

Lemma map2_nth (f : T -> T -> T) (v w : list T) (d : T) (i : nat) :
  List.length v = List.length w ->
  nth i (map2 f v w) (f d d) = f (nth i v d) (nth i w d).
Proof.
  intros Hvw. unfold map2.
  change (f d d) with ((fun p : T * T => f (fst p) (snd p)) (d, d)).
  rewrite map_nth, combine_nth by lia. reflexivity.
Qed.

End Lists.
End NpFacts.

(** ** The rocket problem: constants and the mass constraint *)

Module RocketFacts.
Import Py Np Kernel Tutorial NpFacts.
Local Open Scope string_scope.

Lemma rocket_np : lookup rocket_env "np" = Some (VModule "aerosandbox.numpy").
Proof. vm_compute. reflexivity. Qed.

Lemma rocket_alpha_bound :
  lookup rocket_env "alpha" = Some (VNum (Scalar rocket_alpha)).
Proof. vm_compute. reflexivity. Qed.

Lemma rocket_time_bound :
  lookup rocket_env "time" = Some (VNum (Vector rocket_time)).
Proof. vm_compute. reflexivity. Qed.

Lemma rocket_mass_bound : lookup rocket_env "mass" = Some (VVar (SVec 100)).
Proof. vm_compute. reflexivity. Qed.

Lemma rocket_u_bound : lookup rocket_env "u" = Some (VVar (SVec 100)).
Proof. vm_compute. reflexivity. Qed.

Lemma rocket_alpha_value : rocket_alpha = 1 # 2943.
Proof. vm_compute. reflexivity. Qed.

Lemma rocket_time_steps :
  List.length (diff Qminus rocket_time) = 99%nat /\
  forallb is_positive (diff Qminus rocket_time) = true.
Proof. split; vm_compute; reflexivity. Qed.

Lemma positive_Q2R (q : Q) : is_positive q = true -> (0 < Q2R q)%R.
Proof.
  unfold is_positive. intros H.
  apply negb_true_iff in H.
  assert (Hlt : (0 < q)%Q).
  { apply Qnot_le_lt. intros Hle. apply Qle_bool_iff in Hle. congruence. }
  apply Qlt_Rlt in Hlt. rewrite RMicromega.Q2R_0 in Hlt. exact Hlt.
Qed.

Lemma diff_Q2R (t : list Q) :
  diff Rminus (map Q2R t) = map Q2R (diff Qminus t).
Proof.
  induction t as [|a r IH]; [reflexivity|].
  destruct r as [|b r']; [reflexivity|].
  change (diff Rminus (map Q2R (a :: b :: r')))
    with ((Q2R b - Q2R a)%R :: diff Rminus (map Q2R (b :: r'))).
  rewrite IH.
  change (diff Qminus (a :: b :: r'))
    with ((b - a)%Q :: diff Qminus (b :: r')).
  simpl map. rewrite Q2R_minus. reflexivity.
Qed.

(** What the mass constraint says, entry by entry. *)
Lemma mass_dynamics_meaning (rho : assignment) :
  holds rocket_env rho Rocket.mass_dynamics <->
  exists m u,
    rho "mass" = Some (Vector m) /\ rho "u" = Some (Vector u) /\
    List.length (slice None (Some (-1)%Z) u)
      = List.length (diff Qminus rocket_time) /\
    Forall2 eq (diff Rminus m)
      (map2 Rmult
         (map (Rmult (- Q2R rocket_alpha)) (slice None (Some (-1)%Z) u))
         (map Q2R (diff Qminus rocket_time))).
Proof.
  unfold holds, Rocket.mass_dynamics, denote, method.
  cbn [eval nonneg_int is_numpy eval_bound eval_int option_map].
  rewrite rocket_np, rocket_alpha_bound, rocket_time_bound,
    rocket_mass_bound, rocket_u_bound.
  cbn [String.eqb Ascii.eqb Bool.eqb inject arith map_array Z.opp option_map
       eval_int int].
  rewrite diff_Q2R.
  destruct (rho "mass") as [[x|m]|]; try (split; [tauto | intros (m' & u' & H & _); discriminate]).
  destruct (rho "u") as [[x|u]|]; try (split; [tauto | intros (m' & u' & _ & H & _); discriminate]).
  cbn [zip_array].
  rewrite !length_map.
  destruct (Nat.eqb_spec (List.length (slice None (Some (-1)%Z) u))
              (List.length (diff Qminus rocket_time))) as [E|E].
  - cbn [related rel]. split.
    + intros H. exists m, u. auto.
    + intros (m' & u' & Hm & Hu & _ & H).
      inversion Hm; inversion Hu; subst. exact H.
  - split; [tauto|].
    intros (m' & u' & Hm & Hu & E' & _). inversion Hu; subst. contradiction.
Qed.

Lemma u_nonneg_meaning (rho : assignment) (u : list R) :
  rho "u" = Some (Vector u) ->
  holds rocket_env rho Rocket.u_nonneg -> Forall (fun x => (0 <= x)%R) u.
Proof.
  intros Hu. unfold holds, Rocket.u_nonneg, denote.
  cbn [eval int]. rewrite rocket_u_bound, Hu. cbn [related rel].
  apply Forall_impl. intros x Hx.
  change (Q2R (inject_Z 0)) with (Q2R 0) in Hx.
  rewrite RMicromega.Q2R_0 in Hx. lra.
Qed.

End RocketFacts.

Module RocketMass.
Import Py Np Kernel Tutorial NpFacts RocketFacts.
Local Open Scope string_scope.
Local Open Scope R_scope.

Lemma Forall_firstn {A : Type} (P : A -> Prop) (n : nat) (l : list A) :
  Forall P l -> Forall P (firstn n l).
Proof.
  revert n. induction l as [|a l IH]; intros [|n] H; simpl; auto.
  inversion H; subst. constructor; auto.
Qed.

Lemma Forall2_eq_nth {A : Type} (l l' : list A) (d : A) (i : nat) :
  Forall2 eq l l' -> nth i l d = nth i l' d.
Proof.
  intros H. revert i. induction H as [|a b l l' Hab _ IH]; intros [|i]; simpl; auto.
Qed.

(** A step of fuel burn: non-negative thrust over a positive time step
    takes mass away. *)
Lemma burn_nonpos (a : R) (us dts : list R) :
  0 <= a ->
  Forall (fun x => 0 <= x) us -> Forall (fun d => 0 < d) dts ->
  Forall (fun x => x <= 0) (map2 Rmult (map (Rmult (- a)) us) dts).
Proof.
  intros Ha Hus. revert dts.
  induction Hus as [|u us Hu _ IH]; intros dts Hdts; [constructor|].
  destruct Hdts as [|d dts Hd Hdts]; [constructor|].
  unfold map2. simpl. constructor.
  - assert (0 <= a * u) by (apply Rmult_le_pos; assumption).
    assert (0 <= a * u * d) by (apply Rmult_le_pos; lra).
    lra.
  - apply IH. exact Hdts.
Qed.

(** C5.  In the rocket problem, every assignment of the decision
    variables that satisfies the mass dynamics constraint
    [np.diff(mass) == (-alpha * u[:-1]) * np.diff(time)] and the path
    constraint [u >= 0] has a non-increasing mass: [mass[i+1] <= mass[i]]
    for every index [0 <= i <= 98]. *)
Theorem mass_non_increasing (rho : assignment) (m : list R) :
  rho "mass" = Some (Vector m) ->
  holds rocket_env rho Rocket.mass_dynamics ->
  holds rocket_env rho Rocket.u_nonneg ->
  forall i, (i <= 98)%nat -> nth (S i) m 0 <= nth i m 0.
Proof.
  intros Hm Hdyn Hu i Hi.
  destruct (proj1 (mass_dynamics_meaning rho) Hdyn)
    as (m' & u & Hm' & Hu' & Hlen & Heq).
  rewrite Hm in Hm'. inversion Hm'; subst m'. clear Hm'.
  pose proof (u_nonneg_meaning rho u Hu' Hu) as Hpos.
  destruct rocket_time_steps as [Hsteps Hdt].
  assert (Hm100 : List.length m = 100%nat).
  { apply Forall2_length in Heq.
    rewrite diff_length, map2_length in Heq
      by (rewrite !length_map; exact Hlen).
    rewrite length_map, Hlen, Hsteps in Heq. lia. }
  assert (Hrhs : Forall (fun x => x <= 0)
            (map2 Rmult
               (map (Rmult (- Q2R rocket_alpha)) (slice None (Some (-1)%Z) u))
               (map Q2R (diff Qminus rocket_time)))).
  { apply burn_nonpos.
    - rewrite rocket_alpha_value. unfold Q2R. simpl. lra.
    - rewrite slice_drop_last. apply Forall_firstn. exact Hpos.
    - apply Forall_map. apply Forall_forall. intros q Hq.
      apply positive_Q2R.
      rewrite forallb_forall in Hdt. apply Hdt. exact Hq. }
  pose proof (diff_nth Rminus m 0 i ltac:(lia)) as Hd.
  rewrite (Forall2_eq_nth _ _ 0 i Heq) in Hd.
  assert (Hle : nth i
            (map2 Rmult
               (map (Rmult (- Q2R rocket_alpha)) (slice None (Some (-1)%Z) u))
               (map Q2R (diff Qminus rocket_time))) 0 <= 0).
  { apply (proj1 (Forall_nth _ _) Hrhs).
    rewrite map2_length by (rewrite !length_map; exact Hlen).
    rewrite length_map, Hlen, Hsteps. lia. }
  lra.
Qed.

End RocketMass.

Module RocketTrajectory.
Import Py Np Kernel Tutorial NpFacts RocketFacts RocketMass.
Local Open Scope string_scope.

Lemma slice_map {A B : Type} (f : A -> B) (lo hi : option Z) (v : list A) :
  slice lo hi (map f v) = map f (slice lo hi v).
Proof.
  unfold slice. rewrite length_map.
  destruct (slice_bounds (List.length v) lo hi) as [l h].
  rewrite skipn_map, firstn_map. reflexivity.
Qed.

Lemma map2_Q2R (a b : list Q) :
  map2 Rmult (map Q2R a) (map Q2R b) = map Q2R (map2 Qmult a b).
Proof.
  unfold map2. revert b.
  induction a as [|x a IH]; intros [|y b]; simpl; try reflexivity.
  rewrite Q2R_mult, IH. reflexivity.
Qed.

Lemma scale_Q2R (c : Q) (v : list Q) :
  map (Rmult (- Q2R c)) (map Q2R v) = map Q2R (map (Qmult (- c)) v).
Proof.
  rewrite !map_map. apply map_ext. intros x.
  rewrite Q2R_mult, Q2R_opp. reflexivity.
Qed.

Lemma Forall2_Q2R (a b : list Q) :
  List.length a = List.length b ->
  forallb (fun p => Qeq_bool (fst p) (snd p)) (combine a b) = true ->
  Forall2 eq (map Q2R a) (map Q2R b).
Proof.
  revert b. induction a as [|x a IH]; intros [|y b] Hlen Hall;
    simpl in *; try discriminate; [constructor|].
  apply andb_true_iff in Hall. destruct Hall as [Hxy Hrest].
  constructor.
  - apply Qeq_eqR. apply Qeq_bool_iff. exact Hxy.
  - apply IH; [lia | exact Hrest].
Qed.

(** A rational trajectory that passes the check satisfies the
    constraint. *)
Lemma mass_dynamics_checked (rho : assignment) (m u : list Q) :
  rho "mass" = Some (Vector (map Q2R m)) ->
  rho "u" = Some (Vector (map Q2R u)) ->
  mass_dynamics_check m u = true ->
  holds rocket_env rho Rocket.mass_dynamics.
Proof.
  intros Hm Hu Hc. unfold mass_dynamics_check in Hc.
  apply andb_true_iff in Hc. destruct Hc as [Hc Hall].
  apply andb_true_iff in Hc. destruct Hc as [Hlu Hlm].
  apply Nat.eqb_eq in Hlu, Hlm.
  apply mass_dynamics_meaning.
  exists (map Q2R m), (map Q2R u).
  repeat split; try assumption.
  - rewrite slice_map, length_map. exact Hlu.
  - rewrite diff_Q2R, slice_map, scale_Q2R, map2_Q2R.
    apply Forall2_Q2R; [|exact Hall].
    rewrite Hlm, map2_length by (rewrite length_map; exact Hlu).
    rewrite length_map. symmetry. exact Hlu.
Qed.

Lemma u_nonneg_checked (rho : assignment) (u : list Q) :
  rho "u" = Some (Vector (map Q2R u)) ->
  forallb (Qle_bool 0) u = true ->
  holds rocket_env rho Rocket.u_nonneg.
Proof.
  intros Hu Hall. unfold holds, Rocket.u_nonneg, denote.
  cbn [eval int]. rewrite rocket_u_bound, Hu. cbn [related rel].
  apply Forall_map. apply Forall_forall. intros q Hq.
  rewrite forallb_forall in Hall. specialize (Hall q Hq).
  apply Qle_bool_iff in Hall. apply Qle_Rle in Hall.
  apply Rle_ge. exact Hall.
Qed.

(** The constant-thrust trajectory satisfies both constraints, and its
    mass falls over the last step. *)
Lemma mass_non_increasing_witness :
  (nth 99 (map Q2R constant_burn) 0 <= nth 98 (map Q2R constant_burn) 0)%R.
Proof.
  apply (mass_non_increasing
           (rational [("mass", constant_burn); ("u", constant_thrust)])
           (map Q2R constant_burn)).
  - reflexivity.
  - apply (mass_dynamics_checked _ constant_burn constant_thrust);
      [reflexivity | reflexivity | vm_compute; reflexivity].
  - apply (u_nonneg_checked _ constant_thrust);
      [reflexivity | vm_compute; reflexivity].
  - apply le_n.
Defined.

End RocketTrajectory.

(** ** Shapes *)

Module ShapeFacts.
Import Py Np Kernel Tutorial NpFacts.
Local Open Scope string_scope.

Lemma inject_shape (a : array Q) :
  shape_of_array (inject Q2R a) = shape_of_array a.
Proof. destruct a; simpl; [reflexivity | rewrite length_map; reflexivity]. Qed.

Lemma map_array_shape {T : Type} (f : T -> T) (a : array T) :
  shape_of_array (map_array f a) = shape_of_array a.
Proof. destruct a; simpl; [reflexivity | rewrite length_map; reflexivity]. Qed.

Lemma zip_array_shape {T : Type} (f : T -> T -> T) (a b : array T) (s : shape) :
  broadcast (shape_of_array a) (shape_of_array b) = Some s ->
  exists c, zip_array f a b = Some c /\ shape_of_array c = s.
Proof.
  destruct a as [x|v], b as [y|w]; simpl; intros H.
  - inversion H. eexists; split; reflexivity.
  - inversion H. eexists; split; [reflexivity|]. simpl. rewrite length_map. reflexivity.
  - inversion H. eexists; split; [reflexivity|]. simpl. rewrite length_map. reflexivity.
  - destruct (Nat.eqb_spec (List.length v) (List.length w)) as [E|E]; [|discriminate].
    inversion H. eexists; split; [reflexivity|]. simpl.
    rewrite map2_length by exact E. reflexivity.
Qed.

Lemma linspace_length {T : Type} (of_Q : Q -> T) (add sub mul div : T -> T -> T)
  (a b : T) (n : nat) :
  List.length (linspace of_Q add sub mul div a b n) = n.
Proof.
  destruct n as [|[|n]]; [reflexivity | reflexivity |].
  unfold linspace. rewrite length_map, length_seq. reflexivity.
Qed.

Lemma getitem_in_range {T : Type} (i : Z) (v : list T) :
  index_in_range (List.length v) i = true -> exists x, getitem i v = Some x.
Proof.
  intros H. unfold getitem. rewrite H.
  unfold index_in_range in H. apply andb_true_iff in H. destruct H as [H0 H1].
  apply Z.leb_le in H0. apply Z.ltb_lt in H1.
  destruct (nth_error v (Z.to_nat (from_end (List.length v) i))) as [x|] eqn:E.
  - exists x. reflexivity.
  - apply nth_error_None in E. lia.
Qed.

(** The shape checker is sound: an expression that has a shape has a
    value of that shape under every assignment that respects the
    declared shapes of the variables. *)
Lemma shape_sound (e : env) (rho : assignment) :
  respects e rho ->
  forall x s, shape_of e x = Some s ->
    exists a, denote e rho x = Some a /\ shape_of_array a = s.
Proof.
  intros Hrho. unfold denote.
  fix IH 1. intros x s.
  destruct x as [n|c|v at_|f args kws|l op r|op a|l op r|v i|lo hi|es|vs|v];
    try discriminate.
  - (* Name *)
    simpl. destruct (lookup e n) as [[a|sh| | |]|] eqn:E; try discriminate.
    + intros H. inversion H. eexists. split; [reflexivity | apply inject_shape].
    + intros H. inversion H; subst. apply (Hrho n s E).
  - (* Constant *)
    destruct c; try discriminate; simpl; intros H; inversion H;
      eexists; split; reflexivity.
  - (* Call *)
    destruct args as [|a [|b [|n [|? ?]]]]; try discriminate;
      destruct kws; try discriminate.
    + simpl. destruct (is_numpy e f "diff"); [|discriminate].
      destruct (shape_of e a) as [[|n]|] eqn:Ea; try discriminate.
      intros H. inversion H; subst.
      destruct (IH a _ Ea) as (w & Hw & Sw). rewrite Hw.
      destruct w as [x|w]; [discriminate|].
      eexists. split; [reflexivity|]. simpl. rewrite diff_length.
      simpl in Sw. inversion Sw. reflexivity.
    + simpl. destruct (is_numpy e f "linspace"); [|discriminate].
      destruct (shape_of e a) as [[|?]|] eqn:Ea; try discriminate.
      destruct (shape_of e b) as [[|?]|] eqn:Eb; try discriminate.
      destruct (eval_int e n) as [k|]; [|discriminate].
      destruct (0 <=? k)%Z; [|discriminate].
      intros H. inversion H; subst.
      destruct (IH a _ Ea) as (wa & Hwa & Swa). rewrite Hwa.
      destruct (IH b _ Eb) as (wb & Hwb & Swb). rewrite Hwb.
      destruct wa as [p|?]; [|discriminate].
      destruct wb as [q|?]; [|discriminate].
      eexists. split; [reflexivity|]. simpl. rewrite linspace_length. reflexivity.
  - (* BinOp *)
    simpl.
    assert (Hgen : forall s,
      match shape_of e l, shape_of e r with
      | Some a, Some b => broadcast a b
      | _, _ => None
      end = Some s ->
      forall g, arith Rplus Rminus Rmult Rdiv (Some Rpower) op = Some g ->
      exists a,
        match eval Q2R Rplus Rminus Rmult Rdiv Ropp (Some Rpower) e rho l,
              eval Q2R Rplus Rminus Rmult Rdiv Ropp (Some Rpower) e rho r with
        | Some a, Some b => zip_array g a b
        | _, _ => None
        end = Some a /\ shape_of_array a = s).
    { intros s' H g _.
      destruct (shape_of e l) as [sl|] eqn:El; [|discriminate].
      destruct (shape_of e r) as [sr|] eqn:Er; [|discriminate].
      destruct (IH l _ El) as (wl & Hwl & Swl). rewrite Hwl.
      destruct (IH r _ Er) as (wr & Hwr & Swr). rewrite Hwr.
      subst. apply zip_array_shape. exact H. }
    destruct op; try (intros H; apply (Hgen s H _ eq_refl)).
    destruct (nonneg_int r) as [n|]; [|intros H; apply (Hgen s H _ eq_refl)].
    intros H. destruct (IH l _ H) as (w & Hw & Sw). rewrite Hw.
    eexists. split; [reflexivity|]. rewrite map_array_shape. exact Sw.
  - (* UnaryOp *)
    destruct op. simpl. intros H.
    destruct (IH a _ H) as (w & Hw & Sw). rewrite Hw.
    eexists. split; [reflexivity|]. rewrite map_array_shape. exact Sw.
  - (* Subscript *)
    assert (Hidx : forall s,
      match shape_of e v, eval_int e i with
      | Some (SVec n), Some k => if index_in_range n k then Some SScalar else None
      | _, _ => None
      end = Some s ->
      exists a,
        match eval Q2R Rplus Rminus Rmult Rdiv Ropp (Some Rpower) e rho v,
              eval_int e i with
        | Some (Vector w), Some k => option_map Scalar (getitem k w)
        | _, _ => None
        end = Some a /\ shape_of_array a = s).
    { intros s' H.
      destruct (shape_of e v) as [[|n]|] eqn:Ev; try discriminate.
      destruct (eval_int e i) as [k|]; [|discriminate].
      destruct (index_in_range n k) eqn:Ek; [|discriminate].
      inversion H; subst.
      destruct (IH v _ Ev) as (w & Hw & Sw). rewrite Hw.
      destruct w as [x|w]; [discriminate|]. simpl in Sw. inversion Sw; subst.
      destruct (getitem_in_range k w Ek) as (x & Hx). rewrite Hx.
      eexists. split; reflexivity. }
    destruct i; try (simpl; exact (Hidx s)).
    simpl. intros H.
    destruct (shape_of e v) as [[|n]|] eqn:Ev; try discriminate.
    destruct (eval_bound e lower) as [lo|]; [|discriminate].
    destruct (eval_bound e upper) as [hi|]; [|discriminate].
    inversion H; subst.
    destruct (IH v _ Ev) as (w & Hw & Sw). rewrite Hw.
    destruct w as [x|w]; [discriminate|]. simpl in Sw. inversion Sw; subst.
    eexists. split; [reflexivity|]. simpl. rewrite slice_has_length. reflexivity.
Qed.

End ShapeFacts.

Module RocketShapes.
Import Py Np Kernel Tutorial NpFacts ShapeFacts.
Local Open Scope string_scope.

Lemma rational_assoc (vals : list (string * list Q)) (x : string) :
  rational vals x = option_map (fun v => Vector (map Q2R v)) (assoc vals x).
Proof.
  induction vals as [|[y v] rest IH]; simpl; [reflexivity|].
  destruct (String.eqb x y); [reflexivity | exact IH].
Qed.

Lemma shape_eqb_eq (a b : shape) : shape_eqb a b = true -> a = b.
Proof.
  destruct a, b; simpl; try discriminate; [reflexivity|].
  intros H. apply Nat.eqb_eq in H. congruence.
Qed.

(** A rational assignment whose lengths were checked respects the
    declared shapes. *)
Lemma shapes_match_respects (e : env) (vals : list (string * list Q)) :
  shapes_match e vals = true -> respects e (rational vals).
Proof.
  unfold shapes_match, respects. intros H n s.
  induction e as [|[y v] rest IH]; simpl; [discriminate|].
  simpl in H. apply andb_true_iff in H. destruct H as [Hy Hrest].
  destruct (String.eqb_spec n y) as [->|Hne]; [|exact (IH Hrest)].
  intros E. inversion E; subst v. clear E.
  rewrite rational_assoc.
  destruct (assoc vals y) as [w|]; [|discriminate].
  exists (Vector (map Q2R w)). split; [reflexivity|].
  simpl. rewrite length_map. apply shape_eqb_eq. exact Hy.
Qed.

Lemma vector_of_shape {T : Type} (a : array T) (n : nat) :
  shape_of_array a = SVec n -> exists w, a = Vector w /\ List.length w = n.
Proof.
  destruct a as [x|w]; simpl; [discriminate|].
  intros H. inversion H. exists w. split; reflexivity.
Qed.

Lemma dynamics_sides (c : expr) :
  In c dynamics ->
  exists l r, sides c = Some (l, r)
    /\ shape_of rocket_env l = Some (SVec 99)
    /\ shape_of rocket_env r = Some (SVec 99).
Proof.
  intros [<-|[<-|[<-|[]]]]; eexists; eexists;
    (split; [reflexivity|]); split; vm_compute; reflexivity.
Qed.

(** C9.  In the rocket notebook the four decision variables [y],
    [velocity], [mass] and [u] are vectors of the same length 100 ([y]
    takes the length of its [np.linspace] guess, the others have scalar
    guesses and take [n_vars = N]); each
    of the three forward-Euler constraints equates two vectors of length
    99; every constraint stated before the solver call has a shape, so
    no indexing is out of range and no elementwise operation meets
    operands of different lengths; and under every assignment of values
    of the declared lengths both sides of each dynamics constraint
    evaluate to vectors of 99 entries. *)
Theorem rocket_shapes_consistent :
  map (fun v => (var_name v, var_shape v)) (variables (opti rocket_setup))
    = [ (Some "y", SVec 100); (Some "velocity", SVec 100);
        (Some "mass", SVec 100); (Some "u", SVec 100) ]
  /\ map (fun v => option_map shape_of_array (init_guess v))
       (variables (opti rocket_setup))
     = [Some (SVec 100); Some SScalar; Some SScalar; Some SScalar]
  /\ (forall c, In c dynamics ->
        exists l r, sides c = Some (l, r)
          /\ shape_of rocket_env l = Some (SVec 99)
          /\ shape_of rocket_env r = Some (SVec 99))
  /\ (forall c, In c (relations (opti rocket_at_solve)) ->
        has_shape rocket_env c = true)
  /\ (forall rho, respects rocket_env rho ->
        forall c, In c dynamics ->
          exists l r a b, sides c = Some (l, r)
            /\ denote rocket_env rho l = Some (Vector a)
            /\ denote rocket_env rho r = Some (Vector b)
            /\ List.length a = 99%nat /\ List.length b = 99%nat).
Proof.
  split; [vm_compute; reflexivity|].
  split; [vm_compute; reflexivity|].
  split; [exact dynamics_sides|].
  split.
  - apply forallb_forall. vm_compute. reflexivity.
  - intros rho Hrho c Hc.
    destruct (dynamics_sides c Hc) as (l & r & Hs & Hl & Hr).
    destruct (shape_sound _ _ Hrho l _ Hl) as (a & Ha & Sa).
    destruct (shape_sound _ _ Hrho r _ Hr) as (b & Hb & Sb).
    destruct (vector_of_shape a _ Sa) as (va & -> & La).
    destruct (vector_of_shape b _ Sb) as (vb & -> & Lb).
    exists l, r, va, vb. auto.
Qed.

(** The initial guesses of the notebook are an assignment of the
    declared lengths, so the last part of the theorem applies to it. *)
Lemma rocket_shapes_consistent_witness :
  exists l r a b, sides Rocket.mass_dynamics = Some (l, r)
    /\ denote rocket_env (rational (initial_guesses (opti rocket_setup))) l
       = Some (Vector a)
    /\ denote rocket_env (rational (initial_guesses (opti rocket_setup))) r
       = Some (Vector b)
    /\ List.length a = 99%nat /\ List.length b = 99%nat.
Proof.
  apply (proj2 (proj2 (proj2 (proj2 rocket_shapes_consistent)))
           (rational (initial_guesses (opti rocket_setup)))).
  - apply shapes_match_respects. vm_compute. reflexivity.
  - right. right. left. reflexivity.
Defined.

End RocketShapes.

(** ** Execution: exceptions and the context *)

Module KernelFacts.
Import Py Np Kernel Nb Tutorial.
Local Open Scope string_scope.

Lemma exec_without_try (L : library) (s : stmt) (k : kernel) :
  has_try s = false -> exec L s k = simple L s k.
Proof. destruct s; simpl; intros H; try reflexivity. discriminate. Qed.

Lemma run_app (L : library) (a b : list stmt) (k : kernel) :
  Kernel.run L (a ++ b) k =
  match Kernel.run L a k with
  | Done k' => Kernel.run L b k'
  | Raised e k' => Raised e k'
  end.
Proof.
  revert k. induction a as [|s a IH]; intros k; simpl; [reflexivity|].
  destruct (exec L s k) as [k'|e k']; [apply IH | reflexivity].
Qed.

(** An exception raised by a statement outside any [try] ends the run
    there: the statements after it are not executed. *)
Lemma uncaught_propagates (L : library) (pre post : list stmt) (s : stmt)
  (k k' : kernel) (e : string) :
  has_try s = false ->
  Kernel.run L pre k = Done k' ->
  raises L s k' = Some e ->
  Kernel.run L (pre ++ s :: post) k = Raised e k'.
Proof.
  intros Hs Hpre He.
  rewrite run_app, Hpre. simpl.
  rewrite (exec_without_try L s k' Hs). unfold simple. rewrite He. reflexivity.
Qed.

(** What [try] does, in terms of [run]. *)
Lemma exec_try (L : library) (body handler : list stmt)
  (exc_type : option string) (k : kernel) :
  exec L (Try body exc_type handler) k =
  match Kernel.run L body k with
  | Done k' => Done k'
  | Raised e k' =>
      if catches exc_type e then Kernel.run L handler k' else Raised e k'
  end.
Proof.
  assert (Hblock : forall ss k0,
    (fix block (ss : list stmt) (k : kernel) : outcome :=
       match ss with
       | [] => Done k
       | s :: rest =>
           match exec L s k with
           | Done k' => block rest k'
           | Raised e k' => Raised e k'
           end
       end) ss k0 = Kernel.run L ss k0).
  { induction ss as [|s ss IH]; intros k0; [reflexivity|].
    simpl. destruct (exec L s k0); [apply IH | reflexivity]. }
  simpl. rewrite !Hblock.
  destruct (Kernel.run L body k) as [k'|e k']; [reflexivity|].
  rewrite Hblock. reflexivity.
Qed.

(** The absence of [try] matters: wrapped in a bare [try], a raising
    solver call would not end the run. *)
Lemma try_would_catch (L : library) (s : stmt) (k : kernel) (e : string) :
  has_try s = false -> raises L s k = Some e ->
  Kernel.run L [Try [s] None []] k = Done k.
Proof.
  intros Hs He. unfold Kernel.run at 1. rewrite exec_try.
  simpl Kernel.run. rewrite (exec_without_try L s k Hs).
  unfold simple. rewrite He. reflexivity.
Qed.

Lemma split_at_solve_spec (ss pre post : list stmt) (s : stmt) :
  split_at_solve ss = Some (pre, s, post) ->
  ss = (pre ++ s :: post)%list /\ is_solve s = true.
Proof.
  revert pre. induction ss as [|a ss IH]; intros pre; simpl; [discriminate|].
  destruct (is_solve a) eqn:Ea.
  - intros H. inversion H; subst. split; [reflexivity | exact Ea].
  - destruct (split_at_solve ss) as [[[p c] q]|]; [|discriminate].
    intros H. inversion H; subst.
    destruct (IH p eq_refl) as [-> Hc]. split; [reflexivity | exact Hc].
Qed.

Lemma notebooks_without_try (nb : notebook) :
  In nb notebooks ->
  forallb (fun s => negb (has_try s)) (script nb) = true.
Proof. intros [<-|[<-|[]]]; vm_compute; reflexivity. Qed.

Lemma cell_in_script (nb : notebook) (src : list item) (outs : list output)
  (s : stmt) :
  In (src, outs) (code_cells nb) -> In s (statements src) -> In s (script nb).
Proof.
  intros Hc Hs. unfold script. apply in_flat_map.
  exists (src, outs). split; assumption.
Qed.

(** C6.  Neither notebook handles errors around the solver invocation:
    no [try] occurs anywhere in either notebook, and in the cell that
    invokes the solver an exception raised by the library during
    [opti.solve] propagates uncaught and ends the cell, in the state
    the statements before the call left and without executing the
    statements after it. *)
Theorem solver_exception_propagates (nb : notebook) (src : list item)
  (outs : list output) (L : library) (k k' : kernel) (e : string)
  (pre post : list stmt) (s : stmt) :
  In nb notebooks ->
  In (src, outs) (code_cells nb) ->
  split_at_solve (statements src) = Some (pre, s, post) ->
  Kernel.run L pre k = Done k' ->
  raises L s k' = Some e ->
  forallb (fun s => negb (has_try s)) (script nb) = true
  /\ Kernel.run L (statements src) k = Raised e k'.
Proof.
  intros Hnb Hcell Hsplit Hpre He.
  pose proof (notebooks_without_try nb Hnb) as Hno.
  split; [exact Hno|].
  destruct (split_at_solve_spec _ _ _ _ Hsplit) as [Hsrc _].
  rewrite Hsrc. apply uncaught_propagates; try assumption.
  rewrite forallb_forall in Hno.
  apply negb_true_iff. apply Hno.
  apply (cell_in_script nb src outs); [exact Hcell|].
  rewrite Hsrc. apply in_elt.
Qed.

(** With a solver that raises, the third cell of the gradient notebook
    stops at the call: the constraint is stated, nothing is printed. *)
Lemma solver_exception_propagates_witness :
  forallb (fun s => negb (has_try s)) (script Gradients.notebook) = true
  /\ Kernel.run (failing_solver "RuntimeError")
       (statements Gradients.cell_solve) gradients_before_solve
     = Raised "RuntimeError"
         (state_of (Kernel.run quiet
                      (firstn 1 (statements Gradients.cell_solve))
                      gradients_before_solve)).
Proof.
  apply (solver_exception_propagates Gradients.notebook Gradients.cell_solve
           [Stream "stdout" ["x_optimal = 0.6299605894866889" ++ nl]]
           (failing_solver "RuntimeError") gradients_before_solve _
           "RuntimeError"
           (firstn 1 (statements Gradients.cell_solve))
           (skipn 2 (statements Gradients.cell_solve))
           (nth 1 (statements Gradients.cell_solve) (Return (int 0)))).
  - right. left. reflexivity.
  - right. right. left. reflexivity.
  - reflexivity.
  - vm_compute. reflexivity.
  - reflexivity.
Defined.

(** *** The context only grows *)

Lemma extends_refl (c : context) : extends c c.
Proof. split; exists []; rewrite app_nil_r; reflexivity. Qed.

Lemma opti_bind_target (t : option string) (v : value) (k : kernel) :
  opti (bind_target t v k) = opti k.
Proof. destruct t; reflexivity. Qed.

Lemma add_constraints_extends (cs : list constraint) (k : kernel) :
  extends (opti k) (opti (add_constraints cs k)).
Proof. split; [exists []; simpl; rewrite app_nil_r | exists cs]; reflexivity. Qed.

Lemma variable_extends (t : option string) (kws : list (string * expr))
  (k k' : kernel) :
  variable t kws k = Some k' -> extends (opti k) (opti k').
Proof.
  unfold variable.
  match goal with
  | |- match ?x with _ => _ end = _ -> _ => destruct x as [sh|]
  end; [|discriminate].
  intros H. inversion H; subst. rewrite opti_bind_target. simpl.
  split; [eexists; reflexivity | exists []; rewrite app_nil_r; reflexivity].
Qed.

Lemma opti_call_extends (t : option string) (meth : string)
  (args : list expr) (kws : list (string * expr)) (k k' : kernel) :
  opti_call t meth args kws k = Some k' -> extends (opti k) (opti k').
Proof.
  unfold opti_call.
  destruct (String.eqb meth "variable").
  { destruct args; [apply variable_extends | discriminate]. }
  destruct (String.eqb meth "subject_to").
  { destruct args as [|c [|? ?]]; try discriminate.
    intros H. inversion H; subst. rewrite opti_bind_target.
    unfold subject_to. destruct c; apply add_constraints_extends. }
  destruct (String.eqb meth "constrain_derivative").
  { destruct args; [|discriminate]. unfold constrain_derivative.
    destruct (keyword kws "derivative"); [|discriminate].
    destruct (keyword kws "variable"); [|discriminate].
    destruct (keyword kws "with_respect_to"); [|discriminate].
    intros H. inversion H; subst. rewrite opti_bind_target.
    apply add_constraints_extends. }
  destruct (String.eqb meth "minimize").
  { destruct args as [|f [|? ?]]; try discriminate.
    intros H. inversion H; subst. rewrite opti_bind_target.
    split; exists []; simpl; rewrite app_nil_r; reflexivity. }
  destruct (String.eqb meth "solve"); [|discriminate].
  intros H. inversion H; subst. rewrite opti_bind_target. apply extends_refl.
Qed.

Lemma solve_keeps_context (t : option string) (args : list expr)
  (kws : list (string * expr)) (k k' : kernel) :
  opti_call t "solve" args kws k = Some k' -> opti k' = opti k.
Proof.
  unfold opti_call. simpl. intros H. inversion H. apply opti_bind_target.
Qed.

(** Closes a goal whose call only binds its target. *)
Ltac binds_only :=
  let H := fresh "H" in
  intros H; inversion H; subst; rewrite opti_bind_target; apply extends_refl.

Lemma call_extends (t : option string) (f : expr) (args : list expr)
  (kws : list (string * expr)) (k k' : kernel) :
  match f with
  | Attribute (Name r) meth =>
      match lookup (names k) r with
      | Some v => constructs_context v meth
      | None => false
      end
  | _ => false
  end = false ->
  call t f args kws k = Some k' -> extends (opti k) (opti k').
Proof.
  unfold call. intros Hnew.
  destruct f as [g| |v meth| | | | | | | | |]; try binds_only.
  - destruct (String.eqb g "print"); binds_only.
  - destruct v as [r| | | | | | | | | | |]; try binds_only.
    destruct (lookup (names k) r) as [w|]; [|binds_only].
    destruct w; try (rewrite Hnew; binds_only).
    apply opti_call_extends.
Qed.

(** A statement outside [try] that constructs no new context leaves
    everything the context held in place. *)
Lemma exec_extends (L : library) (s : stmt) (k k' : kernel) :
  has_try s = false -> new_context (names k) s = false ->
  exec L s k = Done k' -> extends (opti k) (opti k').
Proof.
  intros Htry Hnew. rewrite (exec_without_try L s k Htry). unfold simple.
  destruct (raises L s k); [discriminate|].
  destruct (effect s k) as [k1|] eqn:E; [|discriminate].
  intros H. inversion H; subst k1. clear H.
  destruct s as [m a|x v|v|f ps body|v|? ? ?]; simpl in E;
    try (inversion E; subst; apply extends_refl); try discriminate.
  - destruct v; try (inversion E; subst; apply extends_refl).
    apply (call_extends (Some x) _ _ _ _ _ Hnew E).
  - destruct v; try (inversion E; subst; apply extends_refl).
    apply (call_extends None _ _ _ _ _ Hnew E).
Qed.


Lemma extends_trans (a b c : context) :
  extends a b -> extends b c -> extends a c.
Proof.
  intros [[v1 Hv1] [c1 Hc1]] [[v2 Hv2] [c2 Hc2]]. split.
  - exists (v1 ++ v2)%list. rewrite Hv2, Hv1, app_assoc. reflexivity.
  - exists (c1 ++ c2)%list. rewrite Hc2, Hc1, app_assoc. reflexivity.
Qed.

Lemma keeps_context_spec (e : env) (s : stmt) :
  keeps_context s = true -> has_try s = false /\ new_context e s = false.
Proof.
  unfold keeps_context. intros H.
  apply andb_true_iff in H. destruct H as [Ht Hm].
  apply negb_true_iff in Ht. split; [exact Ht|].
  destruct s as [m a|x v|v|f ps body|v|? ? ?]; try reflexivity.
  - destruct v as [| | |f args kws| | | | | | | |]; try reflexivity.
    destruct f as [| |r meth| | | | | | | | |]; try reflexivity.
    destruct r as [r| | | | | | | | | | |]; try reflexivity.
    simpl. destruct (lookup e r) as [w|]; [|reflexivity].
    apply negb_true_iff in Hm.
    destruct w; try reflexivity. simpl. rewrite Hm. apply andb_false_r.
  - destruct v as [| | |f args kws| | | | | | | |]; try reflexivity.
    destruct f as [| |r meth| | | | | | | | |]; try reflexivity.
    destruct r as [r| | | | | | | | | | |]; try reflexivity.
    simpl. destruct (lookup e r) as [w|]; [|reflexivity].
    apply negb_true_iff in Hm.
    destruct w; try reflexivity. simpl. rewrite Hm. apply andb_false_r.
Qed.

(** A run of statements that construct no context only adds to it. *)
Lemma run_extends (L : library) (ss : list stmt) :
  forallb keeps_context ss = true ->
  forall k k', Kernel.run L ss k = Done k' -> extends (opti k) (opti k').
Proof.
  induction ss as [|s ss IH]; intros Hall k k'; simpl.
  - intros H. inversion H. apply extends_refl.
  - simpl in Hall. apply andb_true_iff in Hall. destruct Hall as [Hs Hss].
    destruct (keeps_context_spec (names k) s Hs) as [Htry Hnew].
    destruct (exec L s k) as [k1|e k1] eqn:E; [|discriminate].
    intros H. apply (extends_trans _ (opti k1)).
    + apply (exec_extends L s k k1 Htry Hnew E).
    + apply (IH Hss k1 k' H).
Qed.

(** C8.  The optimization context accumulates monotonically: every
    method call on it, and so every [opti.variable], [opti.subject_to]
    and [opti.constrain_derivative], only adds to the variables and
    constraints it holds; [opti.solve] leaves the context as it is; a
    run of statements that construct no new context only adds; and in
    the rocket notebook the three derivative constraints of the last
    cell are added, after the solve, to the constraints held at the
    solve. *)
Theorem context_accumulates :
  (forall t meth args kws k k',
      opti_call t meth args kws k = Some k' -> extends (opti k) (opti k'))
  /\ (forall t args kws k k',
        opti_call t "solve" args kws k = Some k' -> opti k' = opti k)
  /\ (forall L ss k k',
        forallb keeps_context ss = true ->
        Kernel.run L ss k = Done k' -> extends (opti k) (opti k'))
  /\ variables (opti rocket_final) = variables (opti rocket_at_solve)
  /\ constraints (opti rocket_final)
     = (constraints (opti rocket_at_solve) ++ rocket_derivative_constraints)%list.
Proof.
  split; [exact opti_call_extends|].
  split; [exact solve_keeps_context|].
  split; [intros L ss k k' H; exact (run_extends L ss H k k')|].
  split; vm_compute; reflexivity.
Qed.

(** The last cell of the rocket notebook, run after the solve, extends
    the context the solver saw. *)
Lemma context_accumulates_witness :
  extends (opti rocket_at_solve)
    (opti (state_of (Kernel.run quiet
                       (statements Rocket.cell_constrain_derivative)
                       rocket_at_solve))).
Proof.
  apply (proj1 (proj2 (proj2 context_accumulates)) quiet
           (statements Rocket.cell_constrain_derivative)).
  - reflexivity.
  - vm_compute. reflexivity.
Defined.

(** *** Step order *)






End KernelFacts.

(** ** The workflow *)

Module WorkflowFacts.
Import Text Workflow Tutorial.
Local Open Scope string_scope.

(** A script fails exactly when one of its commands exits non-zero. *)
Lemma run_script_fails (r : runner) (cmds : list string) :
  (run_script r cmds =? 0)%Z
  = forallb (fun c => (exit_status r c =? 0)%Z) cmds.
Proof.
  induction cmds as [|c rest IH]; [reflexivity|]. simpl.
  destruct (exit_status r c =? 0)%Z eqn:E; [exact IH | exact E].
Qed.

(** Without [if:] and [continue-on-error], the job has failed at the
    end exactly when it had failed before or some step fails. *)
Lemma run_steps_plain (r : runner) (ss : list step) :
  forallb no_failure_handling ss = true ->
  forall failed,
    run_steps r failed ss = failed || existsb (fun s => negb (step_ok r s)) ss.
Proof.
  induction ss as [|s rest IH]; intros Hall failed; simpl.
  - rewrite orb_false_r. reflexivity.
  - simpl in Hall. apply andb_true_iff in Hall. destruct Hall as [Hs Hrest].
    unfold no_failure_handling in Hs. unfold step_runs.
    destruct (step_if s); [discriminate|].
    apply negb_true_iff in Hs. rewrite Hs.
    destruct failed; simpl.
    + rewrite (IH Hrest true). reflexivity.
    + destruct (step_ok r s); simpl; rewrite (IH Hrest); reflexivity.
Qed.

Lemma build_is_plain : forallb no_failure_handling (steps build) = true.
Proof. reflexivity. Qed.

(** In [build], a step that runs commands uses no action. *)
Lemma build_run_steps_are_scripts (s : step) :
  In s (steps build) -> run s <> [] -> uses s = None.
Proof.
  simpl. intros [<-|[<-|[<-|[<-|[<-|[]]]]]] H; try reflexivity;
    exfalso; apply H; reflexivity.
Qed.

Lemma failing_command_fails_step (r : runner) (s : step) (c : string) :
  uses s = None -> In c (run s) -> exit_status r c <> 0%Z ->
  step_ok r s = false.
Proof.
  intros Hu Hc He. unfold step_ok. rewrite Hu, run_script_fails.
  apply not_true_is_false. intros Hall.
  rewrite forallb_forall in Hall. specialize (Hall c Hc).
  apply Z.eqb_eq in Hall. contradiction.
Qed.

Lemma build_fails_on_command (r : runner) (c : string) :
  In c (commands build) -> exit_status r c <> 0%Z ->
  run_job r build = Failure.
Proof.
  intros Hc He. unfold run_job.
  rewrite (run_steps_plain r _ build_is_plain), orb_false_l.
  unfold commands in Hc. apply in_flat_map in Hc.
  destruct Hc as (s & Hs & Hcs).
  assert (Hu : uses s = None).
  { apply build_run_steps_are_scripts; [exact Hs|].
    intros E. rewrite E in Hcs. exact Hcs. }
  assert (Hex : existsb (fun s => negb (step_ok r s)) (steps build) = true).
  { apply existsb_exists. exists s. split; [exact Hs|].
    rewrite (failing_command_fails_step r s c Hu Hcs He). reflexivity. }
  rewrite Hex. reflexivity.
Qed.

Lemma build_succeeds_iff (r : runner) :
  run_job r build = Success <->
  (forall s a, In s (steps build) -> uses s = Some a -> action_ok r a = true)
  /\ (forall c, In c (commands build) -> exit_status r c = 0%Z).
Proof.
  unfold run_job.
  rewrite (run_steps_plain r _ build_is_plain), orb_false_l.
  destruct (existsb (fun s => negb (step_ok r s)) (steps build)) eqn:E.
  - split; [discriminate|]. intros [Ha Hc]. exfalso.
    apply existsb_exists in E. destruct E as (s & Hs & Hbad).
    apply negb_true_iff in Hbad. unfold step_ok in Hbad.
    destruct (uses s) as [a|] eqn:Eu.
    + rewrite (Ha s a Hs Eu) in Hbad. discriminate.
    + rewrite run_script_fails in Hbad.
      assert (Hall : forallb (fun c => (exit_status r c =? 0)%Z) (run s) = true).
      { apply forallb_forall. intros c Hcs. apply Z.eqb_eq. apply Hc.
        unfold commands. apply in_flat_map. exists s. split; assumption. }
      congruence.
  - split; [intros _|reflexivity].
    assert (Hok : forall s, In s (steps build) -> step_ok r s = true).
    { intros s Hs. destruct (step_ok r s) eqn:Es; [reflexivity|].
      exfalso. assert (existsb (fun s => negb (step_ok r s)) (steps build) = true).
      { apply existsb_exists. exists s. split; [exact Hs|]. rewrite Es. reflexivity. }
      congruence. }
    split.
    + intros s a Hs Hu. specialize (Hok s Hs). unfold step_ok in Hok.
      rewrite Hu in Hok. exact Hok.
    + intros c Hc. unfold commands in Hc. apply in_flat_map in Hc.
      destruct Hc as (s & Hs & Hcs).
      assert (Hu : uses s = None).
      { apply build_run_steps_are_scripts; [exact Hs|].
        intros E'. rewrite E' in Hcs. exact Hcs. }
      specialize (Hok s Hs). unfold step_ok in Hok. rewrite Hu in Hok.
      rewrite run_script_fails, forallb_forall in Hok.
      apply Z.eqb_eq. apply Hok. exact Hcs.
Qed.

(** C7.  The workflow's failure semantics are binary on exit status: no
    step of the job writes [if:] or [continue-on-error:], and the only
    actions used are checkout and setup-python, so there is no
    branching, retry or partial-failure handling; a non-zero exit
    status of any install or test command fails the job; and the job
    succeeds exactly when every action succeeds and every command exits
    with status zero. *)
Theorem workflow_failure_is_binary (r : runner) :
  forallb no_failure_handling (steps build) = true
  /\ flat_map (fun s => match uses s with Some a => [a] | None => [] end)
       (steps build)
     = ["actions/checkout@v4"; "actions/setup-python@v5"]
  /\ Forall (fun c => is_install c = true \/ is_test c = true) (commands build)
  /\ (forall c, In c (commands build) -> exit_status r c <> 0%Z ->
        run_job r build = Failure)
  /\ (run_job r build = Success <->
      (forall s a, In s (steps build) -> uses s = Some a -> action_ok r a = true)
      /\ (forall c, In c (commands build) -> exit_status r c = 0%Z)).
Proof.
  split; [exact build_is_plain|].
  split; [reflexivity|].
  split.
  - apply Forall_forall. intros c Hc.
    assert (H : forallb (fun c => is_install c || is_test c) (commands build) = true)
      by (vm_compute; reflexivity).
    rewrite forallb_forall in H. apply orb_true_iff. apply H. exact Hc.
  - split; [exact (build_fails_on_command r) | exact (build_succeeds_iff r)].
Qed.

(** A runner on which only [pytest aerosandbox] fails: the job fails. *)
Lemma workflow_failure_is_binary_witness :
  run_job {| exit_status := fun c => if String.eqb c "pytest aerosandbox"
                                     then 1%Z else 0%Z;
             action_ok := fun _ => true;
             condition := fun _ => true |} build = Failure.
Proof.
  apply (proj1 (proj2 (proj2 (proj2
           (workflow_failure_is_binary
              {| exit_status := fun c => if String.eqb c "pytest aerosandbox"
                                         then 1%Z else 0%Z;
                 action_ok := fun _ => true;
                 condition := fun _ => true |}))))
           "pytest aerosandbox").
  - simpl. tauto.
  - simpl. discriminate.
Defined.

(** *** What the workflow runs *)

Lemma test_preceded_by_install (s : step) (pre post : list string) (t : string) :
  In s (steps build) -> run s = (pre ++ t :: post)%list -> is_test t = true ->
  exists p, last pre "" = p /\ classify p = PackageInstall.
Proof.
  simpl. intros [<-|[<-|[<-|[<-|[<-|[]]]]]] Hrun Ht; simpl in Hrun.
  - destruct pre; discriminate.
  - destruct pre; discriminate.
  - destruct pre as [|a [|b [|c pre]]]; simpl in Hrun; inversion Hrun; subst;
      try discriminate Ht. destruct pre; discriminate.
  - destruct pre as [|a [|b pre]]; simpl in Hrun; inversion Hrun; subst;
      try discriminate Ht.
    + eexists. split; reflexivity.
    + destruct pre; discriminate.
  - destruct pre as [|a [|b pre]]; simpl in Hrun; inversion Hrun; subst;
      try discriminate Ht.
    + eexists. split; reflexivity.
    + destruct pre; discriminate.
Qed.

(** C3.  The CI workflow is triggered on push and pull-request events,
    is parameterised by a matrix of interpreter versions that the
    setup step receives, and runs, with no condition on any step,
    package-manager commands and exactly two test invocations, each
    directly after installing the package: [pytest aerosandbox] against
    the packaged library, and py.test against the tutorial notebooks
    with a per-cell timeout of 120 seconds. *)
Theorem workflow_installs_then_tests :
  map event (on run_pytest) = ["push"; "pull_request"]
  /\ jobs run_pytest = [("build", build)]
  /\ matrix build = [("python-version", ["3.9"; "3.11"; "3.12"])]
  /\ (forall inst, In inst (matrix_instances build) ->
        exists s, In s (steps build)
          /\ uses s = Some "actions/setup-python@v5"
          /\ map (fun w => (fst w, instantiate inst (snd w))) (with_ s)
             = [("python-version", snd inst)])
  /\ (forall s, In s (steps build) -> step_if s = None)
  /\ map classify (commands build)
     = [CacheMaintenance; ToolUpgrade; ToolUpgrade;
        PackageInstall; TestInvocation; PackageInstall; TestInvocation]
  /\ test_commands
     = ["pytest aerosandbox";
        "py.test tutorial --nbval-lax --nbval-cell-timeout 120"]
  /\ map parse_pytest test_commands
     = [Some {| targets := ["aerosandbox"]; nbval := false;
                nbval_lax := false; nbval_cell_timeout := None |};
        Some {| targets := ["tutorial"]; nbval := false;
                nbval_lax := true; nbval_cell_timeout := Some 120%nat |}]
  /\ (forall s pre post t,
        In s (steps build) -> run s = (pre ++ t :: post)%list ->
        is_test t = true ->
        exists p, last pre "" = p /\ classify p = PackageInstall).
Proof.
  split; [reflexivity|].
  split; [reflexivity|].
  split; [reflexivity|].
  split.
  { intros inst Hin. eexists. split; [right; left; reflexivity|].
    split; [reflexivity|].
    simpl in Hin. destruct Hin as [<-|[<-|[<-|[]]]]; reflexivity. }
  split.
  { intros s Hs. assert (H := build_is_plain).
    rewrite forallb_forall in H. specialize (H s Hs).
    unfold no_failure_handling in H. destruct (step_if s); [discriminate|reflexivity]. }
  split; [vm_compute; reflexivity|].
  split; [vm_compute; reflexivity|].
  split; [vm_compute; reflexivity|].
  exact test_preceded_by_install.
Qed.

End WorkflowFacts.

(** ** The gradient example: solver output against the closed form *)

Module GradientFacts.
Import Py Np Kernel Tutorial.
Local Open Scope string_scope.
Local Open Scope R_scope.

Lemma ipow_pow (x : R) (n : nat) : ipow Q2R Rmult x n = x ^ n.
Proof.
  induction n as [|n IH]; simpl.
  - apply RMicromega.Q2R_1.
  - rewrite IH. reflexivity.
Qed.

Lemma f_is_fourth_power (x : R) : apply_function Gradients.f_def x = Some (x ^ 4).
Proof.
  unfold apply_function, Gradients.f_def, function_body, denote.
  cbn [eval nonneg_int lookup String.eqb Ascii.eqb Bool.eqb int
       Z.leb Z.compare option_map map_array Z.to_nat Pos.to_nat Pos.iter_op
       Nat.add].
  rewrite ipow_pow. reflexivity.
Qed.

Lemma fourth_power_gradient (x : R) :
  derivable_pt_lim (fun t => t ^ 4) x (4 * x ^ 3).
Proof.
  assert (H := derivable_pt_lim_pow x 4).
  simpl pred in H. replace (4 * x ^ 3) with (INR 4 * x ^ 3); [exact H|].
  simpl INR. ring.
Qed.

Lemma gradient_of_f (x d : R) :
  is_gradient Gradients.f_def x d <-> d = 4 * x ^ 3.
Proof.
  split.
  - intros (F & HF & Hd).
    assert (HFt : forall t, F t = t ^ 4).
    { intros t. specialize (HF t). rewrite f_is_fourth_power in HF.
      inversion HF. reflexivity. }
    assert (Hd' : derivable_pt_lim (fun t => t ^ 4) x d).
    { intros eps Heps. destruct (Hd eps Heps) as (delta & Hdelta).
      exists delta. intros h Hh Hlt. rewrite <- !HFt. apply Hdelta; assumption. }
    apply (uniqueness_limite (fun t => t ^ 4) x); [exact Hd'|].
    apply fourth_power_gradient.
  - intros ->. exists (fun t => t ^ 4). split.
    + exact f_is_fourth_power.
    + apply fourth_power_gradient.
Qed.

Lemma root_pos : 0 < root.
Proof. unfold root, Rpower. apply exp_pos. Qed.

Lemma root_cubed : root ^ 3 = 1 / 4.
Proof.
  rewrite <- (Rpower_pow 3 root root_pos). unfold root.
  rewrite Rpower_mult.
  replace (1 / 3 * INR 3) with 1 by (simpl INR; field).
  apply Rpower_1. lra.
Qed.

Lemma cube_increasing (x y : R) : 0 <= x -> x < y -> x ^ 3 < y ^ 3.
Proof.
  intros Hx Hxy.
  assert (H1 : x * x <= y * y) by nra.
  assert (H2 : 0 < y * y) by nra.
  simpl. nra.
Qed.

Lemma root_unique (x : R) : 4 * x ^ 3 = 1 -> x = root.
Proof.
  intros H. pose proof root_cubed as Hr. pose proof root_pos as Hp.
  assert (Hx : 0 < x).
  { destruct (Rlt_le_dec 0 x) as [Hx|Hx]; [exact Hx|].
    exfalso. assert (x ^ 3 <= 0) by (simpl; nra). lra. }
  destruct (Rtotal_order x root) as [Hlt|[Heq|Hgt]]; [|exact Heq|].
  - pose proof (cube_increasing x root (Rlt_le _ _ Hx) Hlt). lra.
  - pose proof (cube_increasing root x (Rlt_le _ _ Hp) Hgt). lra.
Qed.

(** A rational within whose [eps]-neighbourhood the cube crosses 1/4
    lies within [eps] of the root. *)
Lemma near_root (q eps : R) :
  0 < eps -> 0 <= q - eps ->
  4 * (q - eps) ^ 3 < 1 -> 1 < 4 * (q + eps) ^ 3 ->
  Rabs (q - root) < eps.
Proof.
  intros Heps Hlo Hbelow Habove.
  pose proof root_cubed as Hr. pose proof root_pos as Hp.
  assert (H1 : q - eps < root).
  { destruct (Rlt_le_dec (q - eps) root) as [H|H]; [exact H|].
    exfalso. destruct H as [H|H].
    - pose proof (cube_increasing root (q - eps) (Rlt_le _ _ Hp) H). lra.
    - rewrite <- H in Hbelow. lra. }
  assert (H2 : root < q + eps).
  { destruct (Rlt_le_dec root (q + eps)) as [H|H]; [exact H|].
    exfalso. destruct H as [H|H].
    - assert (0 <= q + eps) by lra.
      pose proof (cube_increasing (q + eps) root ltac:(lra) H). lra.
    - rewrite H in Habove. lra. }
  apply Rabs_def1; lra.
Qed.

Lemma closed_form_denotes_root : real_of Gradients.closed_form = Some root.
Proof.
  unfold real_of, denote, Gradients.closed_form, root.
  cbn [eval nonneg_int arith int zip_array].
  change (Q2R (inject_Z 1)) with (Q2R 1).
  rewrite RMicromega.Q2R_1.
  replace (Q2R (inject_Z 4)) with 4 by (unfold Q2R; simpl; lra).
  replace (Q2R (inject_Z 3)) with 3 by (unfold Q2R; simpl; lra).
  reflexivity.
Qed.

Lemma x_optimal_value : x_optimal = Some 0.6299605894866889%Q.
Proof. vm_compute. reflexivity. Qed.

Lemma printed_closed_form_value :
  printed_closed_form = Some 0.6299605249474366%Q.
Proof. vm_compute. reflexivity. Qed.

(** C4.  For the constrained-gradient example, the gradient of
    [f(x) = x ** 4] is [4 * x ^ 3], the constraint [df/dx = 1] has the
    unique real solution [(1/4) ** (1/3)], which is what the last cell's
    expression denotes, and the solver output recorded in the notebook,
    0.6299605894866889, lies within 1e-6 of it. *)
Theorem x_optimal_matches_closed_form :
  (forall x, is_gradient Gradients.f_def x 1 <-> 4 * x ^ 3 = 1)
  /\ real_of Gradients.closed_form = Some root
  /\ root = Rpower (1 / 4) (1 / 3)
  /\ 4 * root ^ 3 = 1
  /\ (forall x, 4 * x ^ 3 = 1 -> x = root)
  /\ x_optimal = Some 0.6299605894866889%Q
  /\ Rabs (Q2R 0.6299605894866889 - root) < 1e-6
  /\ printed_closed_form = Some 0.6299605249474366%Q
  /\ Rabs (Q2R 0.6299605249474366 - root) < 1e-15.
Proof.
  split.
  { intros x. rewrite gradient_of_f. split; intros H; lra. }
  split; [exact closed_form_denotes_root|].
  split; [reflexivity|].
  split; [rewrite root_cubed; lra|].
  split; [exact root_unique|].
  split; [exact x_optimal_value|].
  split.
  { replace (Q2R 0.6299605894866889) with 0.6299605894866889
      by (unfold Q2R; simpl; lra).
    apply near_root; lra. }
  split; [exact printed_closed_form_value|].
  replace (Q2R 0.6299605249474366) with 0.6299605249474366
    by (unfold Q2R; simpl; lra).
  apply near_root; lra.
Qed.

End GradientFacts.

(** ** Rational assignments: computation agrees with the real meaning *)

Module RationalFacts.
Import Py Np Kernel Tutorial NpFacts RocketFacts RocketTrajectory RocketShapes
  Rational.
Local Open Scope string_scope.

Lemma Q2R_div_total (x y : Q) : Q2R (x / y) = (Q2R x / Q2R y)%R.
Proof.
  unfold Qdiv, Rdiv. rewrite Q2R_mult, RMicromega.Q2R_inv_ext.
  destruct (Qeq_bool y 0) eqn:E; [|reflexivity].
  apply Qeq_bool_iff in E. apply Qeq_eqR in E.
  rewrite RMicromega.Q2R_0 in E. rewrite E, Rinv_0. reflexivity.
Qed.

Lemma inject_id (a : array Q) : inject (fun q : Q => q) a = a.
Proof. destruct a; simpl; [reflexivity | rewrite map_id; reflexivity]. Qed.

Lemma inject_map_array (f : Q -> Q) (g : R -> R) (a : array Q) :
  (forall x, Q2R (f x) = g (Q2R x)) ->
  inject Q2R (map_array f a) = map_array g (inject Q2R a).
Proof.
  intros H. destruct a as [x|v]; simpl; [rewrite H; reflexivity|].
  rewrite !map_map. f_equal. apply map_ext. exact H.
Qed.

Lemma map2_hom (f : Q -> Q -> Q) (g : R -> R -> R) (v w : list Q) :
  (forall x y, Q2R (f x y) = g (Q2R x) (Q2R y)) ->
  map2 g (map Q2R v) (map Q2R w) = map Q2R (map2 f v w).
Proof.
  intros H. unfold map2. revert w.
  induction v as [|x v IH]; intros [|y w]; simpl; try reflexivity.
  rewrite H, IH. reflexivity.
Qed.

Lemma zip_array_hom (f : Q -> Q -> Q) (g : R -> R -> R) (a b c : array Q) :
  (forall x y, Q2R (f x y) = g (Q2R x) (Q2R y)) ->
  zip_array f a b = Some c ->
  zip_array g (inject Q2R a) (inject Q2R b) = Some (inject Q2R c).
Proof.
  intros H. destruct a as [x|v], b as [y|w]; simpl; intros E.
  - inversion E. simpl. rewrite H. reflexivity.
  - inversion E. simpl. rewrite !map_map. do 2 f_equal.
    apply map_ext. intros z. symmetry. apply H.
  - inversion E. simpl. rewrite !map_map. do 2 f_equal.
    apply map_ext. intros z. symmetry. apply H.
  - rewrite !length_map.
    destruct (Nat.eqb (List.length v) (List.length w)); [|discriminate].
    inversion E. simpl. rewrite (map2_hom f g v w H). reflexivity.
Qed.

Lemma ipow_hom (x : Q) (n : nat) :
  Q2R (ipow (fun q : Q => q) Qmult x n) = ipow Q2R Rmult (Q2R x) n.
Proof.
  induction n as [|n IH]; simpl; [reflexivity|].
  rewrite Q2R_mult, IH. reflexivity.
Qed.

Lemma getitem_map {A B : Type} (f : A -> B) (i : Z) (v : list A) :
  getitem i (map f v) = option_map f (getitem i v).
Proof.
  unfold getitem. rewrite length_map.
  destruct (index_in_range (List.length v) i); [|reflexivity].
  apply nth_error_map.
Qed.

Lemma linspace_hom (p q : Q) (n : nat) :
  linspace Q2R Rplus Rminus Rmult Rdiv (Q2R p) (Q2R q) n
  = map Q2R (linspace (fun x : Q => x) Qplus Qminus Qmult Qdiv p q n).
Proof.
  destruct n as [|[|n]]; [reflexivity | reflexivity |].
  unfold linspace. rewrite map_map. apply map_ext. intros i.
  unfold of_nat.
  rewrite Q2R_plus, Q2R_mult, Q2R_div_total, Q2R_minus. reflexivity.
Qed.

(** Exact rational evaluation agrees with the real meaning: where the
    rational value exists, the real value is its image. *)
Lemma qdenote_denote (e : env) (vals : list (string * list Q)) :
  forall x a, qdenote e vals x = Some a ->
    denote e (rational vals) x = Some (inject Q2R a).
Proof.
  unfold qdenote, denote. fix IH 1. intros x a.
  destruct x as [n|c|v at_|f args kws|l op r|op u|l op r|v i|lo hi|es|vs|v];
    try discriminate.
  - (* Name *)
    simpl. destruct (lookup e n) as [[b|sh| | |]|]; try discriminate.
    + intros H. inversion H. rewrite inject_id. reflexivity.
    + unfold qrho. rewrite rational_assoc.
      destruct (assoc vals n) as [w|]; [|discriminate].
      simpl. intros H. inversion H. reflexivity.
  - (* Constant *)
    destruct c; try discriminate; simpl; intros H; inversion H; reflexivity.
  - (* Call *)
    destruct args as [|u [|b [|n [|? ?]]]]; try discriminate;
      destruct kws; try discriminate.
    + simpl. destruct (is_numpy e f "diff"); [|discriminate].
      destruct (eval _ _ _ _ _ _ _ e (qrho vals) u) as [[x|w]|] eqn:Eu;
        try discriminate.
      intros H. inversion H. rewrite (IH u _ Eu). simpl.
      rewrite diff_Q2R. reflexivity.
    + simpl. destruct (is_numpy e f "linspace"); [|discriminate].
      destruct (eval _ _ _ _ _ _ _ e (qrho vals) u) as [[p|?]|] eqn:Eu;
        try discriminate.
      destruct (eval _ _ _ _ _ _ _ e (qrho vals) b) as [[q|?]|] eqn:Eb;
        try discriminate.
      destruct (eval_int e n) as [k|]; [|discriminate].
      destruct (0 <=? k)%Z; [|discriminate].
      intros H. inversion H. rewrite (IH u _ Eu), (IH b _ Eb). simpl.
      rewrite linspace_hom. reflexivity.
  - (* BinOp *)
    simpl.
    assert (Hgen : forall fq fr,
      (forall x y, Q2R (fq x y) = fr (Q2R x) (Q2R y)) ->
      match eval (fun q : Q => q) Qplus Qminus Qmult Qdiv Qopp None e
              (qrho vals) l,
            eval (fun q : Q => q) Qplus Qminus Qmult Qdiv Qopp None e
              (qrho vals) r with
      | Some a, Some b => zip_array fq a b
      | _, _ => None
      end = Some a ->
      match eval Q2R Rplus Rminus Rmult Rdiv Ropp (Some Rpower) e
              (rational vals) l,
            eval Q2R Rplus Rminus Rmult Rdiv Ropp (Some Rpower) e
              (rational vals) r with
      | Some a, Some b => zip_array fr a b
      | _, _ => None
      end = Some (inject Q2R a)).
    { intros fq fr Hf.
      destruct (eval _ _ _ _ _ _ _ e (qrho vals) l) as [al|] eqn:El;
        [|discriminate].
      destruct (eval _ _ _ _ _ _ _ e (qrho vals) r) as [ar|] eqn:Er;
        [|discriminate].
      rewrite (IH l _ El), (IH r _ Er). apply zip_array_hom. exact Hf. }
    destruct op; simpl.
    + apply Hgen. exact Q2R_plus.
    + apply Hgen. exact Q2R_minus.
    + apply Hgen. exact Q2R_mult.
    + apply Hgen. exact Q2R_div_total.
    + destruct (nonneg_int r) as [n|]; [|discriminate].
      destruct (eval _ _ _ _ _ _ _ e (qrho vals) l) as [al|] eqn:El;
        [|discriminate].
      simpl. intros H. inversion H. rewrite (IH l _ El). simpl.
      rewrite (inject_map_array _ (fun b => ipow Q2R Rmult b n));
        [reflexivity|].
      intros x. apply ipow_hom.
  - (* UnaryOp *)
    destruct op. simpl.
    destruct (eval _ _ _ _ _ _ _ e (qrho vals) u) as [au|] eqn:Eu;
      [|discriminate].
    simpl. intros H. inversion H. rewrite (IH u _ Eu). simpl.
    rewrite (inject_map_array _ Ropp); [reflexivity | exact Q2R_opp].
  - (* Subscript *)
    assert (Hidx :
      match eval (fun q : Q => q) Qplus Qminus Qmult Qdiv Qopp None e
              (qrho vals) v, eval_int e i with
      | Some (Vector w), Some k => option_map Scalar (getitem k w)
      | _, _ => None
      end = Some a ->
      match eval Q2R Rplus Rminus Rmult Rdiv Ropp (Some Rpower) e
              (rational vals) v, eval_int e i with
      | Some (Vector w), Some k => option_map Scalar (getitem k w)
      | _, _ => None
      end = Some (inject Q2R a)).
    { destruct (eval _ _ _ _ _ _ _ e (qrho vals) v) as [[x|w]|] eqn:Ev;
        try discriminate.
      destruct (eval_int e i) as [k|]; [|discriminate].
      rewrite (IH v _ Ev). simpl. rewrite getitem_map.
      destruct (getitem k w) as [x|]; [|discriminate].
      simpl. intros H. inversion H. reflexivity. }
    destruct i; try (simpl; exact Hidx).
    simpl.
    destruct (eval _ _ _ _ _ _ _ e (qrho vals) v) as [[x|w]|] eqn:Ev;
      try discriminate.
    destruct (eval_bound e lower) as [lo|]; [|discriminate].
    destruct (eval_bound e upper) as [hi|]; [|discriminate].
    intros H. inversion H. rewrite (IH v _ Ev). simpl.
    rewrite slice_map. reflexivity.
Qed.


Lemma rel_reflect (op : cmpop) (x y : Q) :
  rel op (Q2R x) (Q2R y) <-> qrel op x y = true.
Proof.
  destruct op; simpl.
  - rewrite Qeq_bool_iff. split; [apply eqR_Qeq | apply Qeq_eqR].
  - rewrite negb_true_iff, <- not_true_iff_false, Qeq_bool_iff.
    split; intros H E; apply H; [apply Qeq_eqR | apply eqR_Qeq]; exact E.
  - rewrite negb_true_iff, <- not_true_iff_false, Qle_bool_iff. split.
    + intros H. apply Qlt_not_le. apply Rlt_Qlt. exact H.
    + intros H. apply Qlt_Rlt. apply Qnot_le_lt. exact H.
  - rewrite Qle_bool_iff. split; [apply Rle_Qle | apply Qle_Rle].
  - rewrite negb_true_iff, <- not_true_iff_false, Qle_bool_iff. split.
    + intros H. apply Qlt_not_le. apply Rlt_Qlt. exact H.
    + intros H. apply Qlt_Rlt. apply Qnot_le_lt. exact H.
  - rewrite Qle_bool_iff. split.
    + intros H. apply Rle_Qle. apply Rge_le. exact H.
    + intros H. apply Rle_ge. apply Qle_Rle. exact H.
Qed.

Lemma Forall_reflect (P : R -> Prop) (p : Q -> bool) (v : list Q) :
  (forall x, P (Q2R x) <-> p x = true) ->
  Forall P (map Q2R v) <-> forallb p v = true.
Proof.
  intros H. rewrite Forall_map, Forall_forall, forallb_forall.
  split; intros Hall x Hx; apply H; apply Hall; exact Hx.
Qed.

Lemma Forall2_reflect (P : R -> R -> Prop) (p : Q -> Q -> bool) (v w : list Q) :
  (forall x y, P (Q2R x) (Q2R y) <-> p x y = true) ->
  Forall2 P (map Q2R v) (map Q2R w) <->
  Nat.eqb (List.length v) (List.length w)
  && forallb (fun q => p (fst q) (snd q)) (combine v w) = true.
Proof.
  intros H. revert w. induction v as [|x v IH]; intros [|y w]; simpl.
  - split; [reflexivity | constructor].
  - split; [intros E; inversion E | discriminate].
  - split; [intros E; inversion E | discriminate].
  - specialize (IH w). split.
    + intros E. inversion E; subst.
      match goal with Hrest : Forall2 P _ _ |- _ =>
        apply (proj1 IH) in Hrest; apply andb_true_iff in Hrest;
        destruct Hrest as [Hl Hr]
      end.
      rewrite Hl. simpl.
      apply andb_true_iff. split; [apply H; assumption | exact Hr].
    + intros E. apply andb_true_iff in E. destruct E as [Hl E].
      apply andb_true_iff in E. destruct E as [Hxy Hr].
      constructor; [apply H; exact Hxy|].
      apply IH. rewrite Hl, Hr. reflexivity.
Qed.

Lemma related_reflect (op : cmpop) (a b : array Q) :
  related (rel op) (inject Q2R a) (inject Q2R b)
  <-> qrelated (qrel op) a b = true.
Proof.
  destruct a as [x|v], b as [y|w]; simpl.
  - apply rel_reflect.
  - apply Forall_reflect. intros z. apply rel_reflect.
  - apply (Forall_reflect (fun z => rel op z (Q2R y))).
    intros z. apply rel_reflect.
  - apply Forall2_reflect. intros z t. apply rel_reflect.
Qed.

(** A constraint holds at a rational assignment exactly when the exact
    rational check says so. *)
Lemma qholds_spec (e : env) (vals : list (string * list Q)) (c : expr)
  (b : bool) :
  qholds e vals c = Some b -> (holds e (rational vals) c <-> b = true).
Proof.
  destruct c as [| | | | | |l op r| | | | |]; try discriminate.
  unfold qholds, holds.
  destruct (qdenote e vals l) as [al|] eqn:El; [|discriminate].
  destruct (qdenote e vals r) as [ar|] eqn:Er; [|discriminate].
  rewrite (qdenote_denote e vals l al El), (qdenote_denote e vals r ar Er).
  intros H. inversion H. apply related_reflect.
Qed.

End RationalFacts.

(** ** The rocket problem: what the stated relations imply *)

Module RocketProblemFacts.
Import Py Np Kernel Tutorial NpFacts RocketFacts RocketTrajectory RocketShapes
  Rational RationalFacts RocketProblem.
Local Open Scope string_scope.
Local Open Scope R_scope.

Lemma rocket_y_bound : lookup rocket_env "y" = Some (VVar (SVec 100)).
Proof. vm_compute. reflexivity. Qed.

Lemma rocket_velocity_bound :
  lookup rocket_env "velocity" = Some (VVar (SVec 100)).
Proof. vm_compute. reflexivity. Qed.

Lemma rocket_g_bound : lookup rocket_env "g" = Some (VNum (Scalar (981 # 100))).
Proof. vm_compute. reflexivity. Qed.

Lemma rocket_mass_initial_bound :
  lookup rocket_env "mass_initial" = Some (VNum (Scalar 500000%Q)).
Proof. vm_compute. reflexivity. Qed.

Lemma rocket_y_final_bound :
  lookup rocket_env "y_final" = Some (VNum (Scalar 100000%Q)).
Proof. vm_compute. reflexivity. Qed.

(** Unfolds the meaning of a stated relation down to the values the
    assignment gives the variables. *)
Ltac open_constraint :=
  unfold holds, denote, method;
  cbn [eval nonneg_int is_numpy eval_bound eval_int option_map int];
  rewrite ?rocket_np, ?rocket_alpha_bound, ?rocket_time_bound,
    ?rocket_mass_bound, ?rocket_u_bound, ?rocket_y_bound,
    ?rocket_velocity_bound, ?rocket_g_bound, ?rocket_mass_initial_bound,
    ?rocket_y_final_bound;
  cbn [String.eqb Ascii.eqb Bool.eqb inject arith map_array Z.opp option_map
       eval_int int].

Lemma stated_relations :
  stated = (dynamics
            ++ [y_start; velocity_start; mass_start; y_end]
            ++ [Rocket.mass_nonneg; Rocket.u_nonneg])%list.
Proof. vm_compute. reflexivity. Qed.

(** The time grid is uniform, with step 100/99. *)
Lemma time_step (i : nat) :
  (i < 99)%nat -> nth i (map Q2R (diff Qminus rocket_time)) 0 = 100 / 99.
Proof.
  intros Hi.
  assert (Hall : forallb (fun d => Qeq_bool d (100 # 99))
                   (diff Qminus rocket_time) = true)
    by (vm_compute; reflexivity).
  destruct rocket_time_steps as [Hlen _].
  rewrite forallb_forall in Hall.
  rewrite (nth_indep _ 0 (Q2R 0)) by (rewrite length_map; lia).
  rewrite map_nth.
  assert (Hin : In (nth i (diff Qminus rocket_time) 0%Q)
                  (diff Qminus rocket_time)) by (apply nth_In; lia).
  specialize (Hall _ Hin). apply Qeq_bool_iff in Hall. apply Qeq_eqR in Hall.
  rewrite Hall. unfold Q2R. simpl. lra.
Qed.

Lemma slice_drop_last_length {T : Type} (v : list T) :
  List.length (slice None (Some (-1)%Z) v) = (List.length v - 1)%nat.
Proof. rewrite slice_drop_last, length_firstn. lia. Qed.

Lemma slice_drop_last_nth (v : list R) (i : nat) :
  (i < List.length v - 1)%nat ->
  nth i (slice None (Some (-1)%Z) v) 0 = nth i v 0.
Proof.
  intros Hi. rewrite slice_drop_last, nth_firstn.
  destruct (Nat.ltb_spec i (List.length v - 1)); [reflexivity | lia].
Qed.

Lemma map2_nth_R (f : R -> R -> R) (v w : list R) (i : nat) :
  List.length v = List.length w -> (i < List.length v)%nat ->
  nth i (map2 f v w) 0 = f (nth i v 0) (nth i w 0).
Proof.
  intros Hlen Hi.
  rewrite (nth_indep _ 0 (f 0 0)) by (rewrite map2_length; assumption).
  apply map2_nth. exact Hlen.
Qed.

(** A forward-Euler relation [diff a == rhs] read entry by entry. *)
Lemma euler_step (a rhs : list R) (i : nat) :
  Forall2 eq (diff Rminus a) rhs -> (i < List.length rhs)%nat ->
  nth (S i) a 0 - nth i a 0 = nth i rhs 0.
Proof.
  intros H Hi. pose proof (Forall2_length H) as Hlen.
  rewrite diff_length in Hlen.
  rewrite <- (diff_nth Rminus a 0 i) by lia.
  apply RocketMass.Forall2_eq_nth. exact H.
Qed.

Lemma euler_length (a rhs : list R) :
  Forall2 eq (diff Rminus a) rhs -> (0 < List.length rhs)%nat ->
  List.length a = S (List.length rhs).
Proof.
  intros H Hpos. pose proof (Forall2_length H) as Hlen.
  rewrite diff_length in Hlen. lia.
Qed.

(** The altitude relation, one step at a time. *)
Lemma y_steps (rho : assignment) (ys vs : list R) :
  rho "y" = Some (Vector ys) -> rho "velocity" = Some (Vector vs) ->
  holds rocket_env rho Rocket.y_dynamics ->
  List.length ys = 100%nat /\ List.length vs = 100%nat
  /\ forall i, (i < 99)%nat ->
       nth (S i) ys 0 - nth i ys 0 = nth i vs 0 * (100 / 99).
Proof.
  intros Hy Hv. unfold Rocket.y_dynamics. open_constraint.
  rewrite Hy, Hv, diff_Q2R. cbn [zip_array].
  rewrite length_map. destruct rocket_time_steps as [Hsteps _].
  rewrite Hsteps, slice_drop_last_length.
  destruct (Nat.eqb_spec (List.length vs - 1) 99) as [E|E]; [|tauto].
  cbn [related rel]. intros H.
  assert (Hlen : List.length
            (map2 Rmult (slice None (Some (-1)%Z) vs)
               (map Q2R (diff Qminus rocket_time))) = 99%nat).
  { rewrite map2_length; rewrite ?length_map, ?slice_drop_last_length; lia. }
  split; [rewrite (euler_length _ _ H); lia|].
  split; [lia|].
  intros i Hi. rewrite (euler_step _ _ i H) by lia.
  rewrite map2_nth_R
    by (rewrite ?length_map, ?slice_drop_last_length; lia).
  rewrite slice_drop_last_nth by lia. rewrite time_step by lia. reflexivity.
Qed.

(** The mass relation, one step at a time. *)
Lemma mass_steps (rho : assignment) (ms us : list R) :
  rho "mass" = Some (Vector ms) -> rho "u" = Some (Vector us) ->
  holds rocket_env rho Rocket.mass_dynamics ->
  List.length ms = 100%nat /\ List.length us = 100%nat
  /\ forall i, (i < 99)%nat ->
       nth (S i) ms 0 - nth i ms 0 = - (1 / 2943) * nth i us 0 * (100 / 99).
Proof.
  intros Hm Hu Hdyn.
  destruct (proj1 (mass_dynamics_meaning rho) Hdyn)
    as (m' & u' & Hm' & Hu' & Hlen & H).
  rewrite Hm in Hm'. inversion Hm'; subst m'.
  rewrite Hu in Hu'. inversion Hu'; subst u'. clear Hm' Hu'.
  destruct rocket_time_steps as [Hsteps _].
  rewrite Hsteps, slice_drop_last_length in Hlen.
  assert (Hl : List.length
            (map2 Rmult
               (map (Rmult (- Q2R rocket_alpha)) (slice None (Some (-1)%Z) us))
               (map Q2R (diff Qminus rocket_time))) = 99%nat).
  { rewrite map2_length; rewrite ?length_map, ?slice_drop_last_length; lia. }
  split; [rewrite (euler_length _ _ H); lia|].
  split; [lia|].
  intros i Hi. rewrite (euler_step _ _ i H) by lia.
  rewrite map2_nth_R
    by (rewrite ?length_map, ?slice_drop_last_length; lia).
  rewrite time_step by lia.
  rewrite (nth_indep _ 0 (- Q2R rocket_alpha * 0))
    by (rewrite length_map, slice_drop_last_length; lia).
  rewrite (map_nth (Rmult (- Q2R rocket_alpha))).
  rewrite slice_drop_last_nth by lia.
  rewrite rocket_alpha_value.
  replace (Q2R (1 # 2943)) with (1 / 2943) by (unfold Q2R; simpl; lra).
  reflexivity.
Qed.

(** The velocity relation, one step at a time. *)
Lemma velocity_steps (rho : assignment) (vs us ms : list R) :
  rho "velocity" = Some (Vector vs) -> rho "u" = Some (Vector us) ->
  rho "mass" = Some (Vector ms) ->
  holds rocket_env rho Rocket.velocity_dynamics ->
  List.length vs = 100%nat
  /\ forall i, (i < 99)%nat ->
       nth (S i) vs 0 - nth i vs 0
       = (nth i us 0 / nth i ms 0 - 9.81) * (100 / 99).
Proof.
  intros Hv Hu Hm. unfold Rocket.velocity_dynamics. open_constraint.
  rewrite Hv, Hu, Hm, diff_Q2R. cbn [zip_array].
  rewrite !slice_drop_last_length.
  destruct (Nat.eqb_spec (List.length us - 1) (List.length ms - 1)) as [E|E];
    [|tauto].
  cbn [zip_array].
  rewrite !length_map. destruct rocket_time_steps as [Hsteps _].
  rewrite Hsteps, map2_length by (rewrite !slice_drop_last_length; exact E).
  rewrite slice_drop_last_length.
  destruct (Nat.eqb_spec (List.length us - 1) 99) as [E'|E']; [|tauto].
  cbn [related rel]. intros H.
  assert (Hq : List.length
            (map2 Rdiv (slice None (Some (-1)%Z) us)
               (slice None (Some (-1)%Z) ms)) = 99%nat).
  { rewrite map2_length; rewrite ?slice_drop_last_length; lia. }
  assert (Hlen : List.length
            (map2 Rmult
               (map (fun x => x - Q2R (981 # 100))
                  (map2 Rdiv (slice None (Some (-1)%Z) us)
                     (slice None (Some (-1)%Z) ms)))
               (map Q2R (diff Qminus rocket_time))) = 99%nat).
  { rewrite map2_length; rewrite ?length_map; lia. }
  split; [rewrite (euler_length _ _ H); lia|].
  intros i Hi. rewrite (euler_step _ _ i H) by lia.
  rewrite map2_nth_R by (rewrite ?length_map; lia).
  rewrite time_step by lia.
  rewrite (nth_indep _ 0 (0 - Q2R (981 # 100))) by (rewrite length_map; lia).
  rewrite (map_nth (fun x => x - Q2R (981 # 100))).
  rewrite map2_nth_R by (rewrite ?slice_drop_last_length; lia).
  rewrite !slice_drop_last_nth by lia.
  replace (Q2R (981 # 100)) with 9.81 by (unfold Q2R; simpl; lra).
  reflexivity.
Qed.

(** *** Boundary conditions *)

Lemma getitem_nth (i : Z) (v : list R) (x : R) :
  getitem i v = Some x ->
  nth (Z.to_nat (from_end (List.length v) i)) v 0 = x.
Proof.
  unfold getitem. destruct (index_in_range (List.length v) i); [|discriminate].
  intros H. apply nth_error_nth. exact H.
Qed.

Lemma first_entry (rho : assignment) (n : string) (v : list R) (q : Q)
  (rhs : expr) :
  lookup rocket_env n = Some (VVar (SVec 100)) ->
  denote rocket_env rho rhs = Some (Scalar (Q2R q)) ->
  rho n = Some (Vector v) ->
  holds rocket_env rho (Compare (Subscript (Name n) (int 0)) OpEq rhs) ->
  nth 0 v 0 = Q2R q.
Proof.
  intros Hn Hrhs Hv. unfold holds. rewrite Hrhs. unfold denote.
  cbn [eval eval_int int]. rewrite Hn, Hv.
  destruct (getitem 0 v) as [x|] eqn:E; [|simpl; tauto].
  simpl. intros ->. apply (getitem_nth 0 v). exact E.
Qed.

Lemma y_start_value (rho : assignment) (ys : list R) :
  rho "y" = Some (Vector ys) -> holds rocket_env rho y_start ->
  nth 0 ys 0 = 0.
Proof.
  intros Hy H.
  rewrite (first_entry rho "y" ys 0%Q (int 0) rocket_y_bound eq_refl Hy H).
  apply RMicromega.Q2R_0.
Qed.

Lemma velocity_start_value (rho : assignment) (vs : list R) :
  rho "velocity" = Some (Vector vs) -> holds rocket_env rho velocity_start ->
  nth 0 vs 0 = 0.
Proof.
  intros Hv H.
  rewrite (first_entry rho "velocity" vs 0%Q (int 0) rocket_velocity_bound
             eq_refl Hv H).
  apply RMicromega.Q2R_0.
Qed.

Lemma mass_start_value (rho : assignment) (ms : list R) :
  rho "mass" = Some (Vector ms) -> holds rocket_env rho mass_start ->
  nth 0 ms 0 = 500000.
Proof.
  intros Hm H.
  assert (Hrhs : denote rocket_env rho (Name "mass_initial")
                 = Some (Scalar (Q2R 500000))).
  { unfold denote. cbn [eval]. rewrite rocket_mass_initial_bound. reflexivity. }
  rewrite (first_entry rho "mass" ms 500000%Q (Name "mass_initial")
             rocket_mass_bound Hrhs Hm H).
  unfold Q2R. simpl. lra.
Qed.

Lemma y_end_value (rho : assignment) (ys : list R) :
  rho "y" = Some (Vector ys) -> holds rocket_env rho y_end ->
  nth (List.length ys - 1) ys 0 = 100000.
Proof.
  intros Hy. unfold y_end. open_constraint. rewrite Hy.
  destruct (getitem (-1) ys) as [x|] eqn:E; [|simpl; tauto].
  simpl. intros ->. apply getitem_nth in E.
  replace (Z.to_nat (from_end (List.length ys) (-1)))
    with (List.length ys - 1)%nat in E
    by (unfold from_end; change (-1 <? 0)%Z with true; cbv iota; lia).
  rewrite E. unfold Q2R. simpl. lra.
Qed.

Lemma nonneg_entries (rho : assignment) (n : string) (v : list R) (i : nat) :
  lookup rocket_env n = Some (VVar (SVec 100)) ->
  rho n = Some (Vector v) ->
  holds rocket_env rho (Compare (Name n) OpGtE (int 0)) ->
  0 <= nth i v 0.
Proof.
  intros Hn Hv. unfold holds, denote. cbn [eval int]. rewrite Hn, Hv.
  cbn [related rel]. intros H.
  destruct (Nat.lt_ge_cases i (List.length v)) as [Hi|Hi].
  - apply (proj1 (Forall_nth _ _) H i 0) in Hi.
    change (Q2R (inject_Z 0)) with (Q2R 0) in Hi.
    rewrite RMicromega.Q2R_0 in Hi. lra.
  - rewrite nth_overflow by exact Hi. lra.
Qed.

(** *** Sums *)

Lemma sum_firstn_S (v : list R) (n : nat) :
  (n < List.length v)%nat ->
  sum (firstn (S n) v) = sum (firstn n v) + nth n v 0.
Proof.
  revert n. induction v as [|x v IH]; intros n Hn; [simpl in Hn; lia|].
  destruct n as [|n].
  - unfold sum. simpl. lra.
  - simpl in Hn. pose proof (IH n ltac:(lia)) as E.
    change (firstn (S (S n)) (x :: v)) with (x :: firstn (S n) v).
    change (firstn (S n) (x :: v)) with (x :: firstn n v).
    change (nth (S n) (x :: v) 0) with (nth n v 0).
    unfold sum in *. cbn [fold_right]. lra.
Qed.

(** Equal increments add up: [a[n] - a[0]] is the sum of the first [n]
    rates times the step. *)
Lemma telescope (a b : list R) (c : R) (n : nat) :
  (n <= List.length b)%nat ->
  (forall i, (i < n)%nat -> nth (S i) a 0 - nth i a 0 = nth i b 0 * c) ->
  nth n a 0 - nth 0 a 0 = sum (firstn n b) * c.
Proof.
  induction n as [|n IH]; intros Hn Hstep.
  - unfold sum. simpl. lra.
  - rewrite sum_firstn_S by lia.
    specialize (IH ltac:(lia) (fun i Hi => Hstep i ltac:(lia))).
    specialize (Hstep n ltac:(lia)). lra.
Qed.

Lemma sum_firstn_nonneg (v : list R) (n : nat) :
  (n <= List.length v)%nat ->
  (forall i, (i < n)%nat -> 0 <= nth i v 0) ->
  0 <= sum (firstn n v).
Proof.
  induction n as [|n IH]; intros Hn Hpos; [unfold sum; simpl; lra|].
  rewrite sum_firstn_S by lia.
  specialize (IH ltac:(lia) (fun i Hi => Hpos i ltac:(lia))).
  specialize (Hpos n ltac:(lia)). lra.
Qed.

Lemma sum_firstn_zero (v : list R) (n : nat) :
  (n <= List.length v)%nat ->
  (forall i, (i < n)%nat -> 0 <= nth i v 0) ->
  sum (firstn n v) <= 0 ->
  forall i, (i < n)%nat -> nth i v 0 = 0.
Proof.
  induction n as [|n IH]; intros Hn Hpos Hsum i Hi; [lia|].
  rewrite sum_firstn_S in Hsum by lia.
  pose proof (sum_firstn_nonneg v n ltac:(lia)
                (fun j Hj => Hpos j ltac:(lia))) as Hs.
  pose proof (Hpos n ltac:(lia)) as Hn0.
  destruct (Nat.eq_dec i n) as [->|Hne]; [lra|].
  apply IH; try lia; [intros j Hj; apply Hpos; lia | lra].
Qed.

Lemma sum_firstn_nonpos (v : list R) (n : nat) :
  (n <= List.length v)%nat ->
  (forall i, (i < n)%nat -> nth i v 0 <= 0) ->
  sum (firstn n v) <= 0.
Proof.
  induction n as [|n IH]; intros Hn Hneg; [unfold sum; simpl; lra|].
  rewrite sum_firstn_S by lia.
  specialize (IH ltac:(lia) (fun i Hi => Hneg i ltac:(lia))).
  specialize (Hneg n ltac:(lia)). lra.
Qed.

(** *** Consequences for every assignment *)

(** A rational assignment that passes the exact check satisfies every
    stated relation. *)
Lemma all_hold_sound (vals : list (string * list Q)) (c : expr) :
  all_hold vals = true -> In c stated -> holds rocket_env (rational vals) c.
Proof.
  unfold all_hold. intros Hall Hc. rewrite forallb_forall in Hall.
  specialize (Hall c Hc). cbv beta in Hall.
  remember (qholds rocket_env vals c) as r eqn:E.
  destruct r as [[|]|]; [|discriminate Hall|discriminate Hall].
  apply (proj2 (qholds_spec rocket_env vals c true (eq_sym E))). reflexivity.
Qed.

Lemma climb_checked : all_hold climb = true.
Proof. vm_compute. reflexivity. Qed.

Lemma climb_holds (c : expr) :
  In c stated -> holds rocket_env (rational climb) c.
Proof. apply all_hold_sound. exact climb_checked. Qed.

Lemma in_stated (c : expr) :
  In c (dynamics ++ [y_start; velocity_start; mass_start; y_end]
        ++ [Rocket.mass_nonneg; Rocket.u_nonneg])%list ->
  In c stated.
Proof. rewrite stated_relations. auto. Qed.

Lemma stated_y_dynamics : In Rocket.y_dynamics stated.
Proof. apply in_stated. simpl. tauto. Qed.

Lemma stated_velocity_dynamics : In Rocket.velocity_dynamics stated.
Proof. apply in_stated. simpl. tauto. Qed.

Lemma stated_mass_dynamics : In Rocket.mass_dynamics stated.
Proof. apply in_stated. simpl. tauto. Qed.

Lemma stated_y_start : In y_start stated.
Proof. apply in_stated. simpl. tauto. Qed.

Lemma stated_velocity_start : In velocity_start stated.
Proof. apply in_stated. simpl. tauto. Qed.

Lemma stated_mass_start : In mass_start stated.
Proof. apply in_stated. simpl. tauto. Qed.

Lemma stated_y_end : In y_end stated.
Proof. apply in_stated. simpl. tauto. Qed.

Lemma stated_mass_nonneg : In Rocket.mass_nonneg stated.
Proof. apply in_stated. simpl. tauto. Qed.

Lemma stated_u_nonneg : In Rocket.u_nonneg stated.
Proof. apply in_stated. simpl. tauto. Qed.

Lemma y_dynamics_vectors (rho : assignment) :
  holds rocket_env rho Rocket.y_dynamics ->
  exists ys vs,
    rho "y" = Some (Vector ys) /\ rho "velocity" = Some (Vector vs).
Proof.
  unfold Rocket.y_dynamics. open_constraint.
  destruct (rho "y") as [[x|ys]|]; try tauto.
  destruct (rho "velocity") as [[x|vs]|]; try tauto.
  intros _. exists ys, vs. split; reflexivity.
Qed.

(** X3.  Reaching the final altitude costs fuel: at every feasible
    assignment the final mass is non-negative and strictly below the
    initial mass of 500000, so the objective [-mass[-1]] is bounded and
    never attains [-mass_initial]. *)
Theorem feasible_burns_fuel (rho : assignment) (ms : list R) :
  feasible rho -> rho "mass" = Some (Vector ms) ->
  0 <= nth 99 ms 0 < 500000.
Proof.
  intros Hf Hm. unfold feasible in Hf. rewrite Forall_forall in Hf.
  pose proof (Hf _ stated_y_dynamics) as Hyd.
  pose proof (Hf _ stated_velocity_dynamics) as Hvd.
  pose proof (Hf _ stated_mass_dynamics) as Hmd.
  destruct (y_dynamics_vectors rho Hyd) as (ys & vs & Hy & Hv).
  destruct (proj1 (mass_dynamics_meaning rho) Hmd)
    as (m' & us & Hm' & Hu & _).
  rewrite Hm in Hm'. inversion Hm'; subst m'. clear Hm'.
  destruct (y_steps rho ys vs Hy Hv Hyd) as (Ly & Lv & Hystep).
  destruct (mass_steps rho ms us Hm Hu Hmd) as (Lm & Lu & Hmstep).
  destruct (velocity_steps rho vs us ms Hv Hu Hm Hvd) as (_ & Hvstep).
  pose proof (y_start_value rho ys Hy (Hf _ stated_y_start)) as Ey0.
  pose proof (y_end_value rho ys Hy (Hf _ stated_y_end)) as Ey1.
  rewrite Ly in Ey1. simpl Nat.sub in Ey1.
  pose proof (velocity_start_value rho vs Hv (Hf _ stated_velocity_start))
    as Ev0.
  pose proof (mass_start_value rho ms Hm (Hf _ stated_mass_start)) as Em0.
  pose proof (telescope ys vs (100 / 99) 99 ltac:(lia) Hystep) as Ty.
  assert (Tm : nth 99 ms 0 - nth 0 ms 0
               = sum (firstn 99 us) * (- (100 / 291357))).
  { apply telescope; [lia|]. intros j Hj. rewrite (Hmstep j) by lia. lra. }
  assert (Hu0 : forall i, 0 <= nth i us 0).
  { intros i. apply (nonneg_entries rho "u" us i rocket_u_bound Hu).
    exact (Hf _ stated_u_nonneg). }
  split.
  { apply (nonneg_entries rho "mass" ms 99 rocket_mass_bound Hm).
    exact (Hf _ stated_mass_nonneg). }
  destruct (Rle_lt_dec (sum (firstn 99 us)) 0) as [Hzero|Hpos]; [|lra].
  exfalso.
  assert (Hoff : forall i, (i < 99)%nat -> nth i us 0 = 0).
  { apply sum_firstn_zero; [lia | intros; apply Hu0 | exact Hzero]. }
  assert (Hfall : forall i, (i <= 99)%nat -> nth i vs 0 <= 0).
  { induction i as [|i IH]; intros Hi; [lra|].
    specialize (IH ltac:(lia)). pose proof (Hvstep i ltac:(lia)) as Hs.
    rewrite (Hoff i) in Hs by lia.
    unfold Rdiv at 1 in Hs. rewrite Rmult_0_l in Hs. lra. }
  pose proof (sum_firstn_nonpos vs 99 ltac:(lia)
                (fun i Hi => Hfall i ltac:(lia))).
  lra.
Qed.

Lemma climb_feasible : feasible (rational climb).
Proof. apply Forall_forall. exact climb_holds. Qed.

Lemma feasible_burns_fuel_witness :
  0 <= nth 99 (map Q2R (entries climb "mass")) 0 < 500000.
Proof.
  apply (feasible_burns_fuel (rational climb)).
  - exact climb_feasible.
  - reflexivity.
Defined.

(** X5.  The problem handed to the solver is feasible: some assignment
    of the declared shapes satisfies all nine stated relations (spend
    the thrust in the first time step, then coast). *)
Theorem rocket_problem_is_feasible :
  exists rho, respects rocket_env rho /\ feasible rho.
Proof.
  exists (rational climb). split.
  - apply shapes_match_respects. vm_compute. reflexivity.
  - exact climb_feasible.
Qed.

(** *** The last control *)

Lemma slice_set_last (x : R) (us : list R) :
  slice None (Some (-1)%Z) (set_last x us) = slice None (Some (-1)%Z) us.
Proof.
  rewrite !slice_drop_last. unfold set_last.
  rewrite length_app. simpl List.length.
  replace (List.length (removelast us) + 1 - 1)%nat
    with (List.length (removelast us) + 0)%nat by lia.
  rewrite firstn_app_2. simpl. rewrite app_nil_r.
  rewrite removelast_firstn_len. f_equal. lia.
Qed.

(** Rewrites a relation at the changed control into the relation at the
    original one. *)
Ltac same_without_last :=
  open_constraint; unfold with_u;
  cbn [String.eqb Ascii.eqb Bool.eqb];
  rewrite ?slice_set_last; reflexivity.

(** X4.  The last control is free: the three dynamics relations read
    the control only through [u[:-1]], so replacing [u[-1]] by any value
    changes neither whether they, the boundary conditions and
    [mass >= 0] hold nor the objective; the only stated relation that
    looks at [u[-1]] is [u >= 0]. *)
Theorem last_control_is_free (rho : assignment) (us : list R) (x : R) :
  Forall (fun c => holds rocket_env (with_u rho us) c
                   <-> holds rocket_env (with_u rho (set_last x us)) c)
    (dynamics ++ [y_start; velocity_start; mass_start; y_end;
                  Rocket.mass_nonneg])%list
  /\ (forall obj, rocket_objective = Some obj ->
        denote rocket_env (with_u rho us) obj
        = denote rocket_env (with_u rho (set_last x us)) obj)
  /\ (holds rocket_env (with_u rho (set_last x us)) Rocket.u_nonneg
      <-> Forall (fun v => 0 <= v) (removelast us) /\ 0 <= x).
Proof.
  split; [|split].
  - unfold dynamics. simpl app.
    apply Forall_cons; [unfold Rocket.y_dynamics; same_without_last|].
    apply Forall_cons; [unfold Rocket.velocity_dynamics; same_without_last|].
    apply Forall_cons; [unfold Rocket.mass_dynamics; same_without_last|].
    apply Forall_cons; [unfold y_start; same_without_last|].
    apply Forall_cons; [unfold velocity_start; same_without_last|].
    apply Forall_cons; [unfold mass_start; same_without_last|].
    apply Forall_cons; [unfold y_end; same_without_last|].
    apply Forall_cons; [unfold Rocket.mass_nonneg; same_without_last|].
    apply Forall_nil.
  - intros obj Hobj. vm_compute in Hobj. inversion Hobj; subst obj.
    unfold denote. cbn [eval eval_int option_map int].
    rewrite ?rocket_mass_bound. unfold with_u.
    cbn [String.eqb Ascii.eqb Bool.eqb]. reflexivity.
  - unfold Rocket.u_nonneg. open_constraint. unfold with_u, set_last.
    cbn [String.eqb Ascii.eqb Bool.eqb related rel].
    rewrite Forall_app.
    change (Q2R (inject_Z 0)) with (Q2R 0). rewrite RMicromega.Q2R_0.
    split.
    + intros [Ha Hb]. split.
      * eapply Forall_impl; [|exact Ha]. simpl. intros v Hv. lra.
      * inversion Hb; subst. lra.
    + intros [Ha Hb]. split.
      * eapply Forall_impl; [|exact Ha]. simpl. intros v Hv. lra.
      * constructor; [lra | constructor].
Qed.

(** X10.  Forward Euler keeps the rocket on the ground for one time
    step: with [y[0] == 0] and [velocity[0] == 0], the altitude relation
    gives [y[1] = 0] whatever the thrust. *)
Theorem first_step_stays_grounded (rho : assignment) (ys vs : list R) :
  rho "y" = Some (Vector ys) -> rho "velocity" = Some (Vector vs) ->
  holds rocket_env rho Rocket.y_dynamics ->
  holds rocket_env rho y_start ->
  holds rocket_env rho velocity_start ->
  nth 1 ys 0 = 0.
Proof.
  intros Hy Hv Hdyn Hy0 Hv0.
  destruct (y_steps rho ys vs Hy Hv Hdyn) as (_ & _ & Hstep).
  pose proof (Hstep 0%nat ltac:(lia)) as H.
  rewrite (y_start_value rho ys Hy Hy0) in H.
  rewrite (velocity_start_value rho vs Hv Hv0) in H. lra.
Qed.

Lemma first_step_stays_grounded_witness :
  nth 1 (map Q2R (entries climb "y")) 0 = 0.
Proof.
  apply (first_step_stays_grounded (rational climb)
           (map Q2R (entries climb "y")) (map Q2R (entries climb "velocity"))
           eq_refl eq_refl
           (climb_holds _ stated_y_dynamics)
           (climb_holds _ stated_y_start)
           (climb_holds _ stated_velocity_start)).
Defined.

End RocketProblemFacts.

(** ** The rocket problem, whatever the values of its constants *)

Module RocketConstantsFacts.
Import Py Np Kernel Tutorial NpFacts RocketFacts RocketTrajectory RocketShapes
  Rational RationalFacts RocketProblem RocketProblemFacts RocketConstants.
Local Open Scope string_scope.
Local Open Scope R_scope.

(** *** What the names are bound to *)

Lemma np_at (k : constants) :
  lookup (at_constants k) "np" = Some (VModule "aerosandbox.numpy").
Proof. vm_compute. reflexivity. Qed.

Lemma time_at (k : constants) :
  lookup (at_constants k) "time" = Some (VNum (Vector (time k))).
Proof. reflexivity. Qed.

Lemma g_at (k : constants) :
  lookup (at_constants k) "g" = Some (VNum (Scalar (g k))).
Proof. reflexivity. Qed.

Lemma alpha_at (k : constants) :
  lookup (at_constants k) "alpha" = Some (VNum (Scalar (alpha k))).
Proof. reflexivity. Qed.

Lemma mass_initial_at (k : constants) :
  lookup (at_constants k) "mass_initial"
  = Some (VNum (Scalar (mass_initial k))).
Proof. reflexivity. Qed.

Lemma y_final_at (k : constants) :
  lookup (at_constants k) "y_final" = Some (VNum (Scalar (y_final k))).
Proof. reflexivity. Qed.

Lemma y_at (k : constants) :
  lookup (at_constants k) "y" = Some (VVar (SVec 100)).
Proof. vm_compute. reflexivity. Qed.

Lemma velocity_at (k : constants) :
  lookup (at_constants k) "velocity" = Some (VVar (SVec 100)).
Proof. vm_compute. reflexivity. Qed.

Lemma mass_at (k : constants) :
  lookup (at_constants k) "mass" = Some (VVar (SVec 100)).
Proof. vm_compute. reflexivity. Qed.

Lemma u_at (k : constants) :
  lookup (at_constants k) "u" = Some (VVar (SVec 100)).
Proof. vm_compute. reflexivity. Qed.

Lemma bind_again (e : env) (n x : string) (v : value) :
  lookup e x = Some v -> lookup (bind x v e) n = lookup e n.
Proof.
  intros H. unfold bind. cbn [lookup].
  destruct (String.eqb_spec n x) as [->|_]; [symmetry; exact H | reflexivity].
Qed.

(** The constants the kernel computes are those of its environment:
    binding them again changes no name. *)
Lemma computed_is_rocket_env (n : string) :
  lookup (at_constants computed) n = lookup rocket_env n.
Proof.
  unfold at_constants.
  rewrite !bind_again by (vm_compute; reflexivity). reflexivity.
Qed.

(** Unfolds the meaning of a relation down to the values the assignment
    gives the variables. *)
Ltac open_at :=
  unfold holds, denote, method;
  cbn [eval nonneg_int is_numpy eval_bound eval_int option_map int];
  rewrite ?np_at, ?alpha_at, ?time_at, ?mass_at, ?u_at, ?y_at,
    ?velocity_at, ?g_at, ?mass_initial_at, ?y_final_at;
  cbn [String.eqb Ascii.eqb Bool.eqb inject arith map_array Z.opp option_map
       eval_int int].

(** *** Lists *)



Lemma steps_length (k : constants) :
  List.length (steps k) = List.length (diff Qminus (time k)).
Proof. unfold steps. apply length_map. Qed.



(** *** The three relations, one step at a time *)


Lemma mass_steps_at (k : constants) (rho : assignment) (ms us : list R) :
  rho "mass" = Some (Vector ms) -> rho "u" = Some (Vector us) ->
  holds (at_constants k) rho Rocket.mass_dynamics ->
  (List.length ms - 1 = List.length (steps k))%nat
  /\ (List.length us - 1 = List.length (steps k))%nat
  /\ forall i, (i < List.length (steps k))%nat ->
       nth (S i) ms 0 - nth i ms 0
       = - Q2R (alpha k) * nth i us 0 * nth i (steps k) 0.
Proof.
  intros Hm Hu. unfold Rocket.mass_dynamics. open_at.
  rewrite Hm, Hu, diff_Q2R. cbn [zip_array].
  rewrite length_map, slice_drop_last_length. fold (steps k).
  destruct (Nat.eqb_spec (List.length us - 1) (List.length (steps k)))
    as [E|E]; [|tauto].
  cbn [related rel]. intros H.
  pose proof (Forall2_length H) as Hlen.
  rewrite diff_length, map2_length in Hlen
    by (rewrite length_map, slice_drop_last_length; exact E).
  rewrite length_map, slice_drop_last_length in Hlen.
  split; [lia|]. split; [exact E|].
  intros i Hi.
  rewrite (euler_step _ _ i H)
    by (rewrite map2_length; rewrite length_map, slice_drop_last_length; lia).
  rewrite map2_nth_R by (rewrite ?length_map, ?slice_drop_last_length; lia).
  rewrite (nth_indep _ 0 (- Q2R (alpha k) * 0))
    by (rewrite length_map, slice_drop_last_length; lia).
  rewrite (map_nth (Rmult (- Q2R (alpha k)))).
  rewrite slice_drop_last_nth by lia. reflexivity.
Qed.

Lemma velocity_steps_at (k : constants) (rho : assignment)
  (vs us ms : list R) :
  rho "velocity" = Some (Vector vs) -> rho "u" = Some (Vector us) ->
  rho "mass" = Some (Vector ms) ->
  holds (at_constants k) rho Rocket.velocity_dynamics ->
  (List.length vs - 1 = List.length (steps k))%nat
  /\ forall i, (i < List.length (steps k))%nat ->
       nth (S i) vs 0 - nth i vs 0
       = (nth i us 0 / nth i ms 0 - Q2R (g k)) * nth i (steps k) 0.
Proof.
  intros Hv Hu Hm. unfold Rocket.velocity_dynamics. open_at.
  rewrite Hv, Hu, Hm, diff_Q2R. cbn [zip_array].
  rewrite !slice_drop_last_length.
  destruct (Nat.eqb_spec (List.length us - 1) (List.length ms - 1)) as [E|E];
    [|tauto].
  cbn [zip_array].
  rewrite !length_map, <- (steps_length k). fold (steps k).
  rewrite map2_length by (rewrite !slice_drop_last_length; exact E).
  rewrite slice_drop_last_length.
  destruct (Nat.eqb_spec (List.length us - 1) (List.length (steps k)))
    as [E'|E']; [|tauto].
  cbn [related rel]. intros H.
  assert (Hq : List.length
            (map2 Rdiv (slice None (Some (-1)%Z) us)
               (slice None (Some (-1)%Z) ms)) = List.length (steps k)).
  { rewrite map2_length; rewrite ?slice_drop_last_length; lia. }
  assert (Hrhs : List.length
            (map2 Rmult
               (map (fun x => x - Q2R (g k))
                  (map2 Rdiv (slice None (Some (-1)%Z) us)
                     (slice None (Some (-1)%Z) ms)))
               (steps k)) = List.length (steps k)).
  { rewrite map2_length; rewrite ?length_map; lia. }
  pose proof (Forall2_length H) as Hlen.
  rewrite diff_length, Hrhs in Hlen.
  split; [exact Hlen|].
  intros i Hi. rewrite (euler_step _ _ i H) by lia.
  rewrite map2_nth_R by (rewrite ?length_map; lia).
  rewrite (nth_indep _ 0 (0 - Q2R (g k))) by (rewrite length_map; lia).
  rewrite (map_nth (fun x => x - Q2R (g k))).
  rewrite map2_nth_R by (rewrite ?slice_drop_last_length; lia).
  rewrite !slice_drop_last_nth by lia.
  reflexivity.
Qed.

(** *** Boundary conditions and path constraints *)

Lemma first_entry_at (k : constants) (rho : assignment) (n : string)
  (v : list R) (x : R) (rhs : expr) :
  lookup (at_constants k) n = Some (VVar (SVec 100)) ->
  denote (at_constants k) rho rhs = Some (Scalar x) ->
  rho n = Some (Vector v) ->
  holds (at_constants k) rho (Compare (Subscript (Name n) (int 0)) OpEq rhs) ->
  (0 < List.length v)%nat /\ nth 0 v 0 = x.
Proof.
  intros Hn Hrhs Hv. unfold holds. rewrite Hrhs. unfold denote.
  cbn [eval eval_int int]. rewrite Hn, Hv.
  destruct (getitem 0 v) as [a|] eqn:E; [|simpl; tauto].
  simpl. intros ->. split.
  - destruct v; [discriminate E | simpl; lia].
  - apply (getitem_nth 0 v). exact E.
Qed.


Lemma velocity_start_at (k : constants) (rho : assignment) (vs : list R) :
  rho "velocity" = Some (Vector vs) ->
  holds (at_constants k) rho velocity_start ->
  nth 0 vs 0 = 0.
Proof.
  intros Hv H.
  destruct (first_entry_at k rho "velocity" vs (Q2R 0) (int 0)
              (velocity_at k) eq_refl Hv H) as [_ E].
  rewrite E. apply RMicromega.Q2R_0.
Qed.




Lemma u_nonneg_at (k : constants) (rho : assignment) (us : list R) (i : nat) :
  rho "u" = Some (Vector us) ->
  holds (at_constants k) rho Rocket.u_nonneg ->
  0 <= nth i us 0.
Proof.
  intros Hu. unfold Rocket.u_nonneg. open_at. rewrite Hu.
  cbn [related rel]. intros H.
  destruct (Nat.lt_ge_cases i (List.length us)) as [Hi|Hi].
  - apply (proj1 (Forall_nth _ _) H i 0) in Hi.
    change (Q2R (inject_Z 0)) with (Q2R 0) in Hi.
    rewrite RMicromega.Q2R_0 in Hi. lra.
  - rewrite nth_overflow by exact Hi. lra.
Qed.

(** *** The trajectory used as an instance *)

Lemma climb_holds_at (c : expr) :
  qholds (at_constants computed) climb c = Some true ->
  holds (at_constants computed) (rational climb) c.
Proof.
  intros E. apply (proj2 (qholds_spec _ climb c true E)). reflexivity.
Qed.

Lemma increasing_steps (k : constants) :
  increasing k = true -> Forall (fun d => 0 < d) (steps k).
Proof.
  unfold increasing, steps. intros H. rewrite forallb_forall in H.
  rewrite Forall_map, Forall_forall. intros x Hx.
  apply positive_Q2R. apply H. exact Hx.
Qed.

Lemma computed_steps : List.length (steps computed) = 99%nat.
Proof. rewrite steps_length. vm_compute. reflexivity. Qed.

Lemma computed_increasing : increasing computed = true.
Proof. vm_compute. reflexivity. Qed.

(** *** Consequences for every assignment, at every value of the constants *)





(** *** Gravity bounds the descent *)

Lemma rational_positive (v : list Q) (i : nat) :
  forallb is_positive v = true -> (i < List.length v)%nat ->
  0 < nth i (map Q2R v) 0.
Proof.
  intros Hall Hi. rewrite forallb_forall in Hall.
  rewrite (nth_indep _ 0 (Q2R 0)) by (rewrite length_map; exact Hi).
  rewrite map_nth. apply positive_Q2R. apply Hall. apply nth_In. exact Hi.
Qed.

(** X9.  The rocket never falls faster than free fall: under the
    velocity relation, [velocity[0] == 0] and [u >= 0], on a time grid
    that does not run backwards and with the mass positive at every grid
    point but the last, the velocity at grid point [i] is at least [-g]
    times the time elapsed, the sum of the first [i] time steps.  This
    holds whatever values [g] and the time grid have. *)
Theorem never_faster_than_free_fall (k : constants) (rho : assignment)
  (vs us ms : list R) :
  rho "velocity" = Some (Vector vs) -> rho "u" = Some (Vector us) ->
  rho "mass" = Some (Vector ms) ->
  holds (at_constants k) rho Rocket.velocity_dynamics ->
  holds (at_constants k) rho velocity_start ->
  holds (at_constants k) rho Rocket.u_nonneg ->
  Forall (fun d => 0 <= d) (steps k) ->
  (forall i, (i < List.length (steps k))%nat -> 0 < nth i ms 0) ->
  forall i, (i <= List.length (steps k))%nat ->
    - Q2R (g k) * sum (firstn i (steps k)) <= nth i vs 0.
Proof.
  intros Hv Hu Hm Hvd Hv0 Hun Hgrid Hpos.
  destruct (velocity_steps_at k rho vs us ms Hv Hu Hm Hvd) as (_ & Hstep).
  pose proof (velocity_start_at k rho vs Hv Hv0) as Ev0.
  induction i as [|i IH]; intros Hi.
  - unfold sum. simpl. lra.
  - specialize (IH ltac:(lia)). rewrite sum_firstn_S by lia.
    pose proof (Hstep i ltac:(lia)) as Hs.
    assert (Hacc : 0 <= nth i us 0 / nth i ms 0).
    { unfold Rdiv. apply Rmult_le_pos; [exact (u_nonneg_at k rho us i Hu Hun)|].
      apply Rlt_le. apply Rinv_0_lt_compat. apply Hpos. lia. }
    assert (Hd : 0 <= nth i (steps k) 0).
    { apply (proj1 (Forall_nth _ _) Hgrid). lia. }
    nra.
Qed.

Lemma never_faster_than_free_fall_witness :
  - Q2R (g computed) * sum (firstn 99 (steps computed))
  <= nth 99 (map Q2R (entries climb "velocity")) 0.
Proof.
  apply (never_faster_than_free_fall computed (rational climb)
           (map Q2R (entries climb "velocity"))
           (map Q2R (entries climb "u"))
           (map Q2R (entries climb "mass"))
           eq_refl eq_refl eq_refl).
  - apply climb_holds_at. vm_compute. reflexivity.
  - apply climb_holds_at. vm_compute. reflexivity.
  - apply climb_holds_at. vm_compute. reflexivity.
  - eapply Forall_impl; [|exact (increasing_steps computed computed_increasing)].
    intros d Hd. apply Rlt_le. exact Hd.
  - intros i Hi. rewrite computed_steps in Hi. apply rational_positive.
    + vm_compute. reflexivity.
    + replace (List.length (entries climb "mass")) with 100%nat
        by (vm_compute; reflexivity).
      lia.
  - rewrite computed_steps. apply le_n.
Defined.

(** *** The initial guess *)

Lemma nth_repeat_lt (x : R) (n i : nat) :
  (i < n)%nat -> nth i (repeat x n) 0 = x.
Proof.
  intros Hi. rewrite (nth_indep _ 0 x) by (rewrite repeat_length; exact Hi).
  apply nth_repeat.
Qed.

Lemma guess_entries (n : string) (q : Q) (m : nat) :
  assoc guess n = Some (repeat q m) ->
  rational guess n = Some (Vector (repeat (Q2R q) m)).
Proof.
  intros H. rewrite rational_assoc, H. cbn [option_map].
  rewrite map_repeat. reflexivity.
Qed.

(** X6.  The declared initial guess is not a solution.  Three of the
    four variables are declared with one number as the guess at every
    grid point; an assignment of that form, with a positive thrust and
    a velocity other than zero, violates the mass relation (it thrusts
    without losing mass) and [velocity[0] == 0], whatever positive value
    [alpha] has and whatever increasing time grid of at least two
    points is used. *)
Theorem initial_guess_violates_two (k : constants) (rho : assignment)
  (n : nat) (m u v : R) :
  rho "mass" = Some (Vector (repeat m n)) ->
  rho "u" = Some (Vector (repeat u n)) ->
  rho "velocity" = Some (Vector (repeat v n)) ->
  0 < u -> v <> 0 -> 0 < Q2R (alpha k) ->
  increasing k = true -> (1 < List.length (time k))%nat ->
  ~ holds (at_constants k) rho Rocket.mass_dynamics
  /\ ~ holds (at_constants k) rho velocity_start.
Proof.
  intros Hm Hu Hv Hpos Hne Ha Hinc Hgrid. split; intros H.
  - destruct (mass_steps_at k rho _ _ Hm Hu H) as (Lm & _ & Hstep).
    assert (Hlen : (0 < List.length (steps k))%nat)
      by (rewrite steps_length, diff_length; lia).
    rewrite repeat_length in Lm.
    specialize (Hstep 0%nat Hlen).
    rewrite !nth_repeat_lt in Hstep by lia.
    assert (Hd : 0 < nth 0 (steps k) 0).
    { apply (proj1 (Forall_nth _ _) (increasing_steps k Hinc)). exact Hlen. }
    assert (0 < Q2R (alpha k) * u * nth 0 (steps k) 0)
      by (apply Rmult_lt_0_compat; [apply Rmult_lt_0_compat|]; assumption).
    lra.
  - pose proof (velocity_start_at k rho _ Hv H) as E.
    destruct n as [|n].
    + unfold velocity_start in H. revert H. open_at. rewrite Hv.
      simpl. tauto.
    + exact (Hne E).
Qed.

Lemma initial_guess_violates_two_witness :
  ~ holds (at_constants computed) (rational guess) Rocket.mass_dynamics
  /\ ~ holds (at_constants computed) (rational guess) velocity_start.
Proof.
  apply (initial_guess_violates_two computed (rational guess) 100
           (Q2R 500000) (Q2R 4905000) (Q2R 1000)).
  - apply guess_entries. vm_compute. reflexivity.
  - apply guess_entries. vm_compute. reflexivity.
  - apply guess_entries. vm_compute. reflexivity.
  - apply positive_Q2R. vm_compute. reflexivity.
  - apply Rgt_not_eq. apply positive_Q2R. vm_compute. reflexivity.
  - apply positive_Q2R. vm_compute. reflexivity.
  - vm_compute. reflexivity.
  - vm_compute. lia.
Defined.

End RocketConstantsFacts.

(** ** The workflow: what a run starts, and when it is triggered *)

Module WorkflowRunFacts.
Import Text Workflow Tutorial WorkflowFacts WorkflowRun.
Local Open Scope string_scope.

Lemma script_started_items (r : runner) (cmds : list string) :
  map Ran (script_started r cmds) = through_first_failure r (map Ran cmds).
Proof.
  induction cmds as [|c rest IH]; [reflexivity|]. simpl.
  destruct (exit_status r c =? 0)%Z; simpl; [rewrite IH|]; reflexivity.
Qed.

Lemma step_started_items (r : runner) (s : step) :
  step_started r s = through_first_failure r (step_items s).
Proof.
  unfold step_started, step_items. destruct (uses s) as [a|].
  - simpl. destruct (action_ok r a); reflexivity.
  - apply script_started_items.
Qed.

Lemma step_ok_items (r : runner) (s : step) :
  step_ok r s = forallb (item_ok r) (step_items s).
Proof.
  unfold step_ok, step_items. destruct (uses s) as [a|].
  - simpl. rewrite andb_true_r. reflexivity.
  - rewrite run_script_fails.
    induction (run s) as [|c rest IH]; [reflexivity|].
    simpl. rewrite IH. reflexivity.
Qed.

Lemma through_app (r : runner) (a b : list started) :
  through_first_failure r (a ++ b)
  = if forallb (item_ok r) a then (a ++ through_first_failure r b)%list
    else through_first_failure r a.
Proof.
  induction a as [|x a IH]; [reflexivity|]. simpl.
  destruct (item_ok r x); [|reflexivity]. simpl. rewrite IH.
  destruct (forallb (item_ok r) a); reflexivity.
Qed.

Lemma through_all_ok (r : runner) (a : list started) :
  forallb (item_ok r) a = true -> through_first_failure r a = a.
Proof.
  induction a as [|x a IH]; [reflexivity|]. simpl.
  destruct (item_ok r x); [|discriminate]. simpl. intros H.
  rewrite (IH H). reflexivity.
Qed.

(** Without [if:] and [continue-on-error], a job starts its items in
    order and stops after the first one that fails. *)
Lemma steps_started_plain (r : runner) (ss : list step) :
  forallb no_failure_handling ss = true ->
  steps_started r true ss = []
  /\ steps_started r false ss
     = through_first_failure r (flat_map step_items ss).
Proof.
  induction ss as [|s rest IH]; intros Hall; [split; reflexivity|].
  simpl in Hall. apply andb_true_iff in Hall. destruct Hall as [Hs Hrest].
  destruct (IH Hrest) as [IHt IHf].
  unfold no_failure_handling in Hs.
  destruct (step_if s) eqn:Eif; [discriminate|].
  apply negb_true_iff in Hs.
  split.
  - simpl. unfold step_runs. rewrite Eif. simpl. exact IHt.
  - simpl. unfold step_runs. rewrite Eif. simpl.
    rewrite Hs, through_app, step_started_items, step_ok_items.
    destruct (forallb (item_ok r) (step_items s)) eqn:Eok.
    + rewrite IHf, (through_all_ok r _ Eok). reflexivity.
    + rewrite IHt, app_nil_r. reflexivity.
Qed.

Lemma started_iff (r : runner) (pre post : list started) (x : started) :
  ~ In x pre ->
  (In x (through_first_failure r (pre ++ x :: post))
   <-> forallb (item_ok r) pre = true).
Proof.
  induction pre as [|p pre IH]; intros Hnot.
  - simpl. destruct (item_ok r x); simpl; tauto.
  - simpl. simpl in Hnot.
    destruct (item_ok r p); simpl.
    + rewrite <- IH by tauto. split; [intros [E|H]; [tauto | exact H] | tauto].
    + split; [intros [E|[]]; tauto | discriminate].
Qed.

(** X7.  In a job whose steps write neither [if:] nor
    [continue-on-error], an action or command is started exactly when
    everything before it in the job succeeded; so a test invocation
    never runs after a failed installation, and the tutorial tests never
    run after a failed package test. *)
Theorem started_only_after_success (r : runner) (j : job)
  (pre post : list started) (x : started) :
  forallb no_failure_handling (steps j) = true ->
  job_items j = (pre ++ x :: post)%list -> ~ In x pre ->
  (In x (job_started r j) <-> forallb (item_ok r) pre = true).
Proof.
  intros Hplain Hitems Hnot. unfold job_started.
  rewrite (proj2 (steps_started_plain r (steps j) Hplain)).
  unfold job_items in Hitems. rewrite Hitems.
  apply started_iff. exact Hnot.
Qed.

(** In [build], on a runner where [pytest aerosandbox] fails, the
    tutorial tests are not started. *)
Lemma started_only_after_success_witness :
  ~ In (Ran "py.test tutorial --nbval-lax --nbval-cell-timeout 120")
      (job_started
         {| exit_status := fun c => if String.eqb c "pytest aerosandbox"
                                    then 1%Z else 0%Z;
            action_ok := fun _ => true;
            condition := fun _ => true |} build).
Proof.
  intros H.
  assert (Hnot : ~ In (Ran "py.test tutorial --nbval-lax --nbval-cell-timeout 120")
                   (firstn 8 (job_items build))).
  { simpl. intros H'.
    repeat (destruct H' as [H'|H']; [discriminate H'|]). exact H'. }
  apply (proj1 (started_only_after_success
                  {| exit_status := fun c => if String.eqb c "pytest aerosandbox"
                                             then 1%Z else 0%Z;
                     action_ok := fun _ => true;
                     condition := fun _ => true |}
                  build (firstn 8 (job_items build)) []
                  (Ran "py.test tutorial --nbval-lax --nbval-cell-timeout 120")
                  eq_refl eq_refl Hnot)) in H.
  discriminate H.
Defined.

(** *** Triggers *)

Lemma starstar_matches_all (s : string) : matches [StarStar] s = true.
Proof.
  induction s as [|c s IH]; [reflexivity|].
  simpl. simpl in IH. exact IH.
Qed.

Lemma fires_on_every_branch (e ev branch : string) :
  fires {| event := e; branches := ["**"] |} ev branch = String.eqb e ev.
Proof.
  unfold fires. cbn [event branches existsb].
  change (tokens "**") with [StarStar].
  rewrite starstar_matches_all. cbn [orb]. apply andb_true_r.
Qed.

Lemma run_pytest_triggered (ev branch : string) :
  triggered run_pytest ev branch
  = String.eqb "push" ev || String.eqb "pull_request" ev.
Proof.
  unfold triggered, run_pytest. cbn [on existsb].
  rewrite !fires_on_every_branch, orb_false_r. reflexivity.
Qed.

(** X8.  The workflow runs on a push to, or a pull request against,
    every branch: the filter ['**'] matches any branch name, slashes
    included; and no other event triggers it. *)
Theorem every_branch_triggers (branch : string) :
  triggered run_pytest "push" branch = true
  /\ triggered run_pytest "pull_request" branch = true
  /\ forall ev, triggered run_pytest ev branch = true ->
       ev = "push" \/ ev = "pull_request".
Proof.
  split; [|split].
  - rewrite run_pytest_triggered. reflexivity.
  - rewrite run_pytest_triggered. reflexivity.
  - intros ev. rewrite run_pytest_triggered. intros H.
    apply orb_true_iff in H.
    destruct H as [H|H]; apply String.eqb_eq in H; auto.
Qed.

(** A single [*] would not do: it stops at a slash. *)
Lemma star_stops_at_slash : matches (tokens "*") "feature/x" = false.
Proof. reflexivity. Qed.

End WorkflowRunFacts.
